(** * Task bot: per-chat task lists driven by text commands

    A shallow embedding of [bot.py].  The Python values the handlers work on
    are modelled as the interpreter has them: a [str] is a sequence of
    Unicode code points, an [int] is unbounded, the module-level dict
    [tasks_by_chat] is a finite map from chat ids to lists of tuples, and a
    handler is a function from the decoded update and the current store to
    what it sends back together with the store it leaves behind. *)

From Stdlib Require Import ZArith NArith List Bool Lia.
From Stdlib Require DecimalNat.
From stdpp Require Import base option list strings gmap.

Set Default Proof Using "Type".
Open Scope Z_scope.

(** ** Python strings *)

Module Py.

(** A Python [str] is a sequence of code points, not of bytes. *)
Definition codepoint : Type := N.
Definition str : Type := list codepoint.

(** An ASCII literal of the source as code points. *)
Definition lit (s : String.string) : str :=
  map Ascii.N_of_ascii (String.list_ascii_of_string s).

Definition LF : codepoint := 10%N.

(** Truthiness of a [str]: the empty string is falsy. *)
Definition truthy (s : str) : bool :=
  match s with [] => false | _ :: _ => true end.

(** [Py_UNICODE_ISSPACE]: bidirectional type WS, B or S, or category Zs.
    This is the set [str.strip()], [str.split()] and [str.isspace()] use. *)
Definition whitespace : list codepoint :=
  [ 0x09; 0x0A; 0x0B; 0x0C; 0x0D; 0x1C; 0x1D; 0x1E; 0x1F; 0x20; 0x85; 0xA0;
    0x1680; 0x2000; 0x2001; 0x2002; 0x2003; 0x2004; 0x2005; 0x2006; 0x2007;
    0x2008; 0x2009; 0x200A; 0x2028; 0x2029; 0x202F; 0x205F; 0x3000 ]%N.

Definition isspace (c : codepoint) : bool := existsb (N.eqb c) whitespace.

(** [s.lstrip()], [s.rstrip()] and [s.strip()] without arguments. *)
Fixpoint lstrip (s : str) : str :=
  match s with
  | [] => []
  | c :: s' => if isspace c then lstrip s' else s
  end.

Definition rstrip (s : str) : str := reverse (lstrip (reverse s)).

Definition strip (s : str) : str := rstrip (lstrip s).

(** [s.split()] without arguments: the maximal runs of non-whitespace.
    [cur] holds the code points of the token being read, last one first. *)
Fixpoint split_from (cur : str) (s : str) : list str :=
  match s with
  | [] => match cur with [] => [] | _ :: _ => [reverse cur] end
  | c :: s' =>
      if isspace c
      then match cur with
           | [] => split_from [] s'
           | _ :: _ => reverse cur :: split_from [] s'
           end
      else split_from (c :: cur) s'
  end.

Definition split (s : str) : list str := split_from [] s.

(** [sep.join(parts)]. *)
Fixpoint join (sep : str) (parts : list str) : str :=
  match parts with
  | [] => []
  | [p] => p
  | p :: ps => p ++ sep ++ join sep ps
  end.

(** The code points of general category Nd come in blocks of ten, one per
    script, each running from the digit zero to the digit nine.  These are
    the first code points of the blocks. *)
Definition decimal_blocks : list codepoint :=
  [ 0x30; 0x660; 0x6F0; 0x7C0; 0x966; 0x9E6; 0xA66; 0xAE6; 0xB66; 0xBE6;
    0xC66; 0xCE6; 0xD66; 0xDE6; 0xE50; 0xED0; 0xF20; 0x1040; 0x1090; 0x17E0;
    0x1810; 0x1946; 0x19D0; 0x1A80; 0x1A90; 0x1B50; 0x1BB0; 0x1C40; 0x1C50;
    0xA620; 0xA8D0; 0xA900; 0xA9D0; 0xA9F0; 0xAA50; 0xABF0; 0xFF10; 0x104A0;
    0x10D30; 0x11066; 0x110F0; 0x11136; 0x111D0; 0x112F0; 0x11450; 0x114D0;
    0x11650; 0x116C0; 0x11730; 0x118E0; 0x11950; 0x11C50; 0x11D50; 0x11DA0;
    0x16A60; 0x16AC0; 0x16B50; 0x1D7CE; 0x1D7D8; 0x1D7E2; 0x1D7EC; 0x1D7F6;
    0x1E140; 0x1E2F0; 0x1E950; 0x1FBF0 ]%N.

(** [Py_UNICODE_TODECIMAL]: the value of a decimal digit, if it is one. *)
Definition todecimal (c : codepoint) : option N :=
  match find (fun b => (b <=? c)%N && (c <? b + 10)%N) decimal_blocks with
  | Some b => Some (c - b)%N
  | None => None
  end.

(** Code points whose Numeric_Type is Digit but not Decimal: superscripts,
    subscripts, circled and parenthesised digits and the like, as inclusive
    ranges. *)
Definition digit_only_ranges : list (codepoint * codepoint) :=
  [ (0xB2, 0xB3); (0xB9, 0xB9); (0x1369, 0x1371); (0x19DA, 0x19DA);
    (0x2070, 0x2070); (0x2074, 0x2079); (0x2080, 0x2089); (0x2460, 0x2468);
    (0x2474, 0x247C); (0x2488, 0x2490); (0x24EA, 0x24EA); (0x24F5, 0x24FD);
    (0x24FF, 0x24FF); (0x2776, 0x277E); (0x2780, 0x2788); (0x278A, 0x2792);
    (0x10A40, 0x10A43); (0x10E60, 0x10E68); (0x11052, 0x1105A);
    (0x1F100, 0x1F10A) ]%N.

(** [Py_UNICODE_ISDIGIT]: Numeric_Type Digit or Decimal. *)
Definition isdigit_char (c : codepoint) : bool :=
  match todecimal c with
  | Some _ => true
  | None => existsb (fun r => (fst r <=? c)%N && (c <=? snd r)%N) digit_only_ranges
  end.

(** [s.isdigit()]: every character is a digit and there is at least one. *)
Definition isdigit (s : str) : bool :=
  match s with
  | [] => false
  | _ :: _ => forallb isdigit_char s
  end.

(** Whitespace as [int()] sees it: the string is first passed through
    [_PyUnicode_TransformDecimalAndSpaceToASCII], which keeps code points
    below 127 as they are and maps every other Unicode space to a blank;
    the C parser then skips [Py_ISSPACE] characters. *)
Definition int_space (c : codepoint) : bool :=
  if (c <? 127)%N
  then existsb (N.eqb c) [0x09; 0x0A; 0x0B; 0x0C; 0x0D; 0x20]%N
  else isspace c.

Fixpoint skip_int_space (s : str) : str :=
  match s with
  | [] => []
  | c :: s' => if int_space c then skip_int_space s' else s
  end.

(** The digits of a base-10 literal, single underscores allowed between
    digits.  [after_digit] tells whether the previous character was a digit. *)
Fixpoint literal_value (acc : N) (after_digit : bool) (s : str) : option N :=
  match s with
  | [] => if after_digit then Some acc else None
  | c :: s' =>
      if (c =? 0x5F)%N
      then (if after_digit then literal_value acc false s' else None)
      else match todecimal c with
           | Some d => literal_value (10 * acc + d)%N true s'
           | None => None
           end
  end.

(** [sys.int_max_str_digits], the default of CPython 3.11 and later. *)
Definition int_max_str_digits : nat := 4300.

Definition count_digits (s : str) : nat :=
  length (filter (fun c => is_Some (todecimal c)) s).

(** [int(s)] for a [str]; [None] stands for [ValueError]. *)
Definition int (s : str) : option Z :=
  let s1 := skip_int_space s in
  let '(negative, s2) :=
    match s1 with
    | c :: r =>
        if (c =? 0x2D)%N then (true, r)
        else if (c =? 0x2B)%N then (false, r)
        else (false, s1)
    | [] => (false, s1)
    end in
  let body := reverse (skip_int_space (reverse s2)) in
  match literal_value 0 false body with
  | Some n =>
      if (int_max_str_digits <? count_digits body)%nat then None
      else Some (if negative then - Z.of_N n else Z.of_N n)
  | None => None
  end.

(** [str(n)] for a non-negative [int]. *)
Fixpoint uint_codepoints (d : Decimal.uint) : str :=
  match d with
  | Decimal.Nil => []
  | Decimal.D0 d => 0x30%N :: uint_codepoints d
  | Decimal.D1 d => 0x31%N :: uint_codepoints d
  | Decimal.D2 d => 0x32%N :: uint_codepoints d
  | Decimal.D3 d => 0x33%N :: uint_codepoints d
  | Decimal.D4 d => 0x34%N :: uint_codepoints d
  | Decimal.D5 d => 0x35%N :: uint_codepoints d
  | Decimal.D6 d => 0x36%N :: uint_codepoints d
  | Decimal.D7 d => 0x37%N :: uint_codepoints d
  | Decimal.D8 d => 0x38%N :: uint_codepoints d
  | Decimal.D9 d => 0x39%N :: uint_codepoints d
  end.

Definition str_of_nat (n : nat) : str := uint_codepoints (Nat.to_uint n).

(** [len(l)], [l[i]] and [l.pop(i)] on a list; a negative index counts from
    the end and [None] stands for [IndexError]. *)
Definition len {A} (l : list A) : Z := Z.of_nat (length l).

Definition position {A} (l : list A) (i : Z) : option nat :=
  let j := if i <? 0 then i + len l else i in
  if (0 <=? j) && (j <? len l) then Some (Z.to_nat j) else None.

Definition getitem {A} (l : list A) (i : Z) : option A :=
  match position l i with
  | Some j => l !! j
  | None => None
  end.

Definition pop {A} (l : list A) (i : Z) : option (A * list A) :=
  match position l i with
  | Some j =>
      match l !! j with
      | Some x => Some (x, delete j l)
      | None => None
      end
  | None => None
  end.

End Py.

Import Py.

(** ** The store *)

(** A task is the tuple [(task_text, msg_id, added_by)]. *)
Definition task : Type := str * Z * str.

Definition task_text (t : task) : str := t.1.1.
Definition msg_id (t : task) : Z := t.1.2.
Definition added_by (t : task) : str := t.2.

(** [tasks_by_chat]: [{ chat_id: [(task_text, msg_id, added_by)] }]. *)
Abbreviation store := (gmap Z (list task)).

Definition tasks_by_chat : store := ∅.

(** [tasks_by_chat.setdefault(chat_id, [])]: the list stored for the chat;
    a chat seen for the first time gets an empty list stored for it.  The
    list handed out is the stored one, so a handler that appends to it or
    pops from it changes the store: the handlers below write the changed
    list back under the same key. *)
Definition get_tasks_for (chat_id : Z) (st : store) : list task * store :=
  match st !! chat_id with
  | Some tasks => (tasks, st)
  | None => ([], <[chat_id := []]> st)
  end.

(** What a reader of the store sees for a chat. *)
Definition snapshot (st : store) (chat_id : Z) : list task :=
  default [] (st !! chat_id).

(** ** What a handler receives and gives back *)

Record user := {
  username : option str;
  full_name : str;
  first_name : str
}.

(** The parts of [update] the handlers read: [update.effective_chat.id],
    [update.message.message_id] and [update.effective_user]. *)
Record update := {
  effective_chat_id : Z;
  message_id : Z;
  effective_user : user
}.

(** The arguments of [update.message.reply_text]. *)
Record reply := {
  text : str;
  reply_to_message_id : option Z;
  parse_mode : option str
}.

Definition plain (s : str) : reply :=
  {| text := s; reply_to_message_id := None; parse_mode := None |}.

Inductive exception := ValueError | IndexError.

(** A handler either sends one reply or lets an exception escape. *)
Inductive outcome :=
  | Replied (r : reply)
  | Raised (e : exception).

(** A handler gets the update, [context.args] and the store. *)
Definition handler : Type := update → list str → store → outcome * store.

(** ** Texts *)

Definition start_text : str :=
  [0x1F44B%N] ++ lit " Welcome to the Task Bot!" ++ [LF]
  ++ lit "Each group or chat has its own independent task list." ++ [LF; LF]
  ++ lit "Use /add <task> to add a task." ++ [LF]
  ++ lit "Use /list to view tasks." ++ [LF]
  ++ lit "Use /goto <number> to jump (reply) to the original task message." ++ [LF]
  ++ lit "Use /done <number> to mark a task as completed and remove it." ++ [LF]
  ++ lit "Use /clear to clear all tasks in this chat." ++ [LF]
  ++ lit "Use /help to view all commands.".

Definition dash : str := [0x20; 0x2014; 0x20]%N.

Definition help_text : str :=
  [0x1F4CB%N] ++ lit " *Task Bot Commands*" ++ [LF; LF]
  ++ [0x1F195%N] ++ lit " `/add <task>`" ++ dash ++ lit "Add a new task" ++ [LF]
  ++ [0x1F4C4%N] ++ lit " `/list`" ++ dash ++ lit "Show all current tasks" ++ [LF]
  ++ [0x1F50E%N] ++ lit " `/goto <number>`" ++ dash
  ++ lit "Reply to the original `/add` message for that task" ++ [LF]
  ++ [0x2705%N] ++ lit " `/done <number>`" ++ dash
  ++ lit "Mark a task as completed and remove it" ++ [LF]
  ++ [0x1F9F9%N] ++ lit " `/clear`" ++ dash ++ lit "Clear all tasks in *this chat*" ++ [LF]
  ++ [0x2139; 0xFE0F]%N ++ lit " `/help`" ++ dash ++ lit "Show this help message" ++ [LF].

Definition add_usage_text : str :=
  lit "Please enter a task after the command, e.g. /add Buy milk".

Definition added_text (task_text added_by : str) : str :=
  [0x2705%N] ++ lit " Task added: " ++ task_text
  ++ lit " (by " ++ added_by ++ lit ")".

Definition no_tasks_text : str := [0x1F4ED%N] ++ lit " No tasks yet.".

Definition list_header : str :=
  [0x1F4DD%N] ++ lit " Current tasks in this chat:" ++ [LF].

Definition list_line (i : nat) (t : task) : str :=
  str_of_nat (i + 1) ++ lit ". " ++ task_text t
  ++ lit " (by " ++ added_by t ++ lit ")".

Definition goto_usage_text : str :=
  lit "Please enter a task number, e.g. /goto 1".

Definition goto_range_text : str :=
  [0x274C%N] ++ lit " Invalid number. Use /list to check the task index.".

Definition pointer_text (added_by : str) : str :=
  [0x1F4CE%N] ++ lit " Original task (by " ++ added_by ++ lit ") " ++ [0x1F447%N].

Definition nothing_to_complete_text : str :=
  lit "There are no tasks to complete. Add one with /add.".

Definition done_usage_text : str :=
  lit "Please provide a valid number, e.g. /done 1".

Definition done_range_text : str :=
  lit "That task number doesn" ++ [0x2019%N]
  ++ lit "t exist. Use /list to check.".

Definition completed_text (finished_text added_by : str) : str :=
  [0x2705%N] ++ lit " Completed and removed: " ++ finished_text
  ++ lit " (added by " ++ added_by ++ lit ")".

Definition cleared_text : str :=
  [0x1F9F9%N] ++ lit " All tasks in this chat have been cleared.".

(** ** Handlers *)

(** [/start] *)
Definition start : handler := fun _ _ st =>
  (Replied (plain start_text), st).

(** [/help] *)
Definition help_cmd : handler := fun _ _ st =>
  (Replied {| text := help_text; reply_to_message_id := None;
              parse_mode := Some (lit "Markdown") |}, st).

(** [f"@{user.username}" if user.username else
     (user.full_name or user.first_name or "Someone")] *)
Definition display_name (u : user) : str :=
  let other :=
    if truthy (full_name u) then full_name u
    else if truthy (first_name u) then first_name u
    else lit "Someone" in
  match username u with
  | Some n => if truthy n then 0x40%N :: n else other
  | None => other
  end.

(** [/add] *)
Definition add : handler := fun u args st =>
  let chat_id := effective_chat_id u in
  let task_text := strip (join (lit " ") args) in
  if negb (truthy task_text) then
    (Replied (plain add_usage_text), st)
  else
    let msg_id := message_id u in
    let added_by := display_name (effective_user u) in
    let '(tasks, st) := get_tasks_for chat_id st in
    let st := <[chat_id := tasks ++ [(task_text, msg_id, added_by)]]> st in
    (Replied (plain (added_text task_text added_by)), st).

(** [/list] *)
Definition list_tasks : handler := fun u _ st =>
  let chat_id := effective_chat_id u in
  let '(tasks, st) := get_tasks_for chat_id st in
  match tasks with
  | [] => (Replied (plain no_tasks_text), st)
  | _ :: _ =>
      let lines := imap list_line tasks in
      (Replied (plain (list_header ++ join [LF] lines)), st)
  end.

(** [not context.args or not context.args[0].isdigit()] *)
Definition no_number (args : list str) : bool :=
  match args with
  | [] => true
  | a :: _ => negb (isdigit a)
  end.

(** [/goto] *)
Definition goto_task : handler := fun u args st =>
  let chat_id := effective_chat_id u in
  let '(tasks, st) := get_tasks_for chat_id st in
  match tasks with
  | [] => (Replied (plain no_tasks_text), st)
  | _ :: _ =>
      if no_number args then (Replied (plain goto_usage_text), st)
      else
        match int (hd [] args) with
        | None => (Raised ValueError, st)
        | Some n =>
            let index := n - 1 in
            if (index <? 0) || (index >=? len tasks) then
              (Replied (plain goto_range_text), st)
            else
              match getitem tasks index with
              | None => (Raised IndexError, st)
              | Some (_, msg_id, added_by) =>
                  (Replied {| text := pointer_text added_by;
                              reply_to_message_id := Some msg_id;
                              parse_mode := None |}, st)
              end
        end
  end.

(** [/done] *)
Definition done_task : handler := fun u args st =>
  let chat_id := effective_chat_id u in
  let '(tasks, st) := get_tasks_for chat_id st in
  match tasks with
  | [] => (Replied (plain nothing_to_complete_text), st)
  | _ :: _ =>
      if no_number args then (Replied (plain done_usage_text), st)
      else
        match int (hd [] args) with
        | None => (Raised ValueError, st)
        | Some n =>
            let index := n - 1 in
            if (index <? 0) || (index >=? len tasks) then
              (Replied (plain done_range_text), st)
            else
              match pop tasks index with
              | None => (Raised IndexError, st)
              | Some ((finished_text, _, added_by), tasks) =>
                  let st := <[chat_id := tasks]> st in
                  (Replied (plain (completed_text finished_text added_by)), st)
              end
        end
  end.

(** [/clear] *)
Definition clear_tasks : handler := fun u _ st =>
  let chat_id := effective_chat_id u in
  let st := <[chat_id := []]> st in
  (Replied (plain cleared_text), st).

(** ** Dispatch *)

(** The handlers registered with [app.add_handler(CommandHandler(...))]. *)
Definition handlers : list (str * handler) :=
  [ (lit "start", start);
    (lit "help", help_cmd);
    (lit "add", add);
    (lit "list", list_tasks);
    (lit "goto", goto_task);
    (lit "done", done_task);
    (lit "clear", clear_tasks) ].

Fixpoint handler_for (name : str) (hs : list (str * handler)) : option handler :=
  match hs with
  | [] => None
  | (n, h) :: hs' => if bool_decide (n = name) then Some h else handler_for name hs'
  end.

(** A decoded command as the transport delivers it.  [CommandHandler] hands
    the handler [context.args], the text after the command split at
    whitespace ([message.text.split()[1:]]). *)
Record command := {
  chatId : Z;
  commandName : str;
  argString : str;
  sourceMessageId : Z;
  sender : user
}.

Definition handle (c : command) (st : store) : option (outcome * store) :=
  match handler_for (commandName c) handlers with
  | Some h =>
      Some (h {| effective_chat_id := chatId c;
                 message_id := sourceMessageId c;
                 effective_user := sender c |}
              (split (argString c)) st)
  | None => None
  end.

(** The store after a series of commands, one handled after the other; a
    command that is not routed, or whose handler raises, leaves the store
    as its handler left it. *)
Fixpoint run (cs : list command) (st : store) : store :=
  match cs with
  | [] => st
  | c :: cs' =>
      match handle c st with
      | Some (_, st') => run cs' st'
      | None => run cs' st
      end
  end.

(** ** Predicates on texts, commands and stores *)

(** No whitespace at either end. *)
Definition trimmed (s : str) : Prop :=
  (∀ c, head s = Some c → isspace c = false) ∧
  (∀ c, last s = Some c → isspace c = false).

(** What [split] returns: non-empty runs without whitespace. *)
Definition token (t : str) : Prop :=
  t ≠ [] ∧ Forall (λ c, isspace c = false) t.

(** A number written with decimal digits only. *)
Definition decimal (s : str) : Prop :=
  Forall (λ c, is_Some (todecimal c)) s.

(** The task [/add] stores for a decoded command. *)
Definition new_task (c : command) : task :=
  (join (lit " ") (split (argString c)), sourceMessageId c,
   display_name (sender c)).

(** An [/add] for the chat with something left of its text after trimming. *)
Definition adds_to (chat : Z) (c : command) : Prop :=
  commandName c = lit "add" ∧ chatId c = chat ∧
  truthy (strip (argString c)) = true.

(** A stored task is well formed when its text is non-empty and has no
    whitespace at either end. *)
Definition well_formed (t : task) : Prop :=
  task_text t ≠ [] ∧ trimmed (task_text t).

Definition store_ok (st : store) : Prop :=
  ∀ chat t, t ∈ snapshot st chat → well_formed t.

(** ** Sample data *)

Definition ann : user :=
  {| username := Some (lit "ann"); full_name := lit "Ann Lee";
     first_name := lit "Ann" |}.

(** A message from ann in chat 1. *)
Definition from_ann (message_id : Z) : update :=
  {| effective_chat_id := 1; message_id := message_id; effective_user := ann |}.

(** Chat 1 holds two tasks, chat 2 one. *)
Definition two_chats : store :=
  <[1 := [(lit "Buy milk", 10, lit "@ann"); (lit "Call Bob", 12, lit "Someone")]]>
    (<[2 := [(lit "Water plants", 7, lit "@cy")]]> tasks_by_chat).

(** [/add  Buy  milk] from ann in chat 1: a blank in front and two blanks
    between the words. *)
Definition add_buy_milk : command :=
  {| chatId := 1; commandName := lit "add"; argString := lit " Buy  milk";
     sourceMessageId := 10; sender := ann |}.

(** [/done] and [/goto] with the superscript two as the task number, in
    chat 1. *)
Definition superscript_two (name : str) : command :=
  {| chatId := 1; commandName := name; argString := [0xB2%N];
     sourceMessageId := 20; sender := ann |}.

(** [/add] followed by blanks and a tab only, from ann in chat 1. *)
Definition add_blank : command :=
  {| chatId := 1; commandName := lit "add"; argString := [0x20; 0x09; 0x20]%N;
     sourceMessageId := 30; sender := ann |}.

(** [/clear] from ann in chat 2. *)
Definition clear_chat_two : command :=
  {| chatId := 2; commandName := lit "clear"; argString := [];
     sourceMessageId := 31; sender := ann |}.

(** * Properties *)

(** ** Strings *)

Section strings.

Implicit Types (s cur t : str) (c : codepoint) (ts : list str).

Lemma lstrip_head s c : head (lstrip s) = Some c → isspace c = false.
Proof.
  induction s as [|d s IH]; simpl; [done|].
  destruct (isspace d) eqn:Hd; [done|].
  simpl. by intros [= <-].
Qed.

Lemma lstrip_fixed s :
  (∀ c, head s = Some c → isspace c = false) → lstrip s = s.
Proof.
  destruct s as [|d s]; simpl; [done|].
  intros H. by rewrite (H d eq_refl).
Qed.

Lemma lstrip_nil s : lstrip s = [] ↔ Forall (λ c, isspace c = true) s.
Proof.
  induction s as [|d s IH]; simpl.
  - split; [constructor | done].
  - destruct (isspace d) eqn:Hd.
    + rewrite IH. split; [by constructor | by inversion 1].
    + split; [done | inversion 1; congruence].
Qed.

Lemma lstrip_suffix s : lstrip s `suffix_of` s.
Proof.
  induction s as [|d s IH]; simpl; [done|].
  destruct (isspace d); [by apply suffix_cons_r | done].
Qed.

Lemma rstrip_last s c : last (rstrip s) = Some c → isspace c = false.
Proof. unfold rstrip. rewrite last_reverse. apply lstrip_head. Qed.

Lemma rstrip_fixed s :
  (∀ c, last s = Some c → isspace c = false) → rstrip s = s.
Proof.
  intros H. unfold rstrip. rewrite lstrip_fixed.
  - apply reverse_involutive.
  - intros c. rewrite head_reverse. apply H.
Qed.

Lemma rstrip_prefix s : rstrip s `prefix_of` s.
Proof.
  unfold rstrip. destruct (lstrip_suffix (reverse s)) as [k Hk].
  exists (reverse k).
  apply (f_equal reverse) in Hk.
  by rewrite reverse_involutive, reverse_app in Hk.
Qed.

Lemma rstrip_head s c : head (rstrip s) = Some c → head s = Some c.
Proof.
  intros H. destruct (rstrip_prefix s) as [k Hk]. rewrite Hk.
  by destruct (rstrip s).
Qed.

Lemma rstrip_nil s : rstrip s = [] ↔ Forall (λ c, isspace c = true) s.
Proof.
  unfold rstrip. rewrite <-Forall_reverse, <-lstrip_nil.
  split; intros H.
  - by rewrite <-(reverse_involutive (lstrip _)), H.
  - by rewrite H.
Qed.

(** [strip] leaves no whitespace at the ends. *)
Lemma strip_trimmed s : trimmed (strip s).
Proof.
  split; intros c H.
  - apply rstrip_head in H. by apply lstrip_head in H.
  - by apply rstrip_last in H.
Qed.

Lemma strip_fixed s : trimmed s → strip s = s.
Proof.
  intros [Hh Hl]. unfold strip. rewrite lstrip_fixed by done.
  by apply rstrip_fixed.
Qed.

Lemma strip_nil s : strip s = [] ↔ Forall (λ c, isspace c = true) s.
Proof.
  unfold strip. split.
  - intros H. apply lstrip_nil.
    destruct (lstrip s) as [|d r] eqn:E; [done|].
    apply rstrip_nil in H. inversion H as [|?? Hd _]; subst.
    assert (isspace d = false) by (apply (lstrip_head s); by rewrite E).
    congruence.
  - intros H. apply lstrip_nil in H. by rewrite H.
Qed.

Lemma truthy_true s : truthy s = true ↔ s ≠ [].
Proof. by destruct s. Qed.

Lemma split_from_tokens cur s :
  Forall (λ c, isspace c = false) cur → Forall token (split_from cur s).
Proof.
  assert (Htok : ∀ d r, Forall (λ c, isspace c = false) (d :: r) →
                  token (reverse (d :: r))).
  { intros d r H. split; [|by apply Forall_reverse].
    rewrite reverse_cons. by destruct (reverse r). }
  revert cur. induction s as [|d s IH]; intros cur Hcur; simpl.
  - destruct cur; [constructor|]. constructor; [auto | constructor].
  - destruct (isspace d) eqn:Hd.
    + destruct cur; [by apply IH | constructor; auto].
    + apply IH. by constructor.
Qed.

Lemma split_tokens s : Forall token (split s).
Proof. by apply split_from_tokens. Qed.

Lemma split_from_nil cur s :
  split_from cur s = [] ↔ cur = [] ∧ Forall (λ c, isspace c = true) s.
Proof.
  revert cur. induction s as [|d s IH]; intros cur; simpl.
  - destruct cur; split; try done. by intros [? _].
  - destruct (isspace d) eqn:Hd.
    + destruct cur.
      * rewrite IH. split; intros [? H]; split; try done.
        -- by constructor.
        -- by apply Forall_cons in H as [_ H].
      * split; [done | by intros [? _]].
    + rewrite IH. split; [by intros [? _] | ].
      intros [_ H]. inversion H; congruence.
Qed.

(** There is a token exactly when something is left after stripping. *)
Lemma split_nil s : split s = [] ↔ strip s = [].
Proof.
  unfold split. rewrite split_from_nil, strip_nil. tauto.
Qed.

Lemma join_cons sep t ts :
  ts ≠ [] → join sep (t :: ts) = t ++ sep ++ join sep ts.
Proof. by destruct ts. Qed.

Lemma join_nil_inv sep ts : Forall token ts → join sep ts = [] → ts = [].
Proof.
  destruct ts as [|t ts]; [done|].
  intros Ht. apply Forall_cons in Ht as [[Hne _] _].
  destruct ts; simpl; [done|]. by destruct t.
Qed.

(** Tokens joined by blanks have no whitespace at the ends. *)
Lemma join_tokens_trimmed ts : Forall token ts → trimmed (join (lit " ") ts).
Proof.
  induction 1 as [|t ts [Hne Ht] Hts IH]; [by split|].
  destruct ts as [|t' ts].
  - simpl. split; intros c Hc.
    + apply head_Some_elem_of in Hc.
      by eapply (proj1 (Forall_forall _ _) Ht).
    + apply last_Some_elem_of in Hc.
      by eapply (proj1 (Forall_forall _ _) Ht).
  - rewrite join_cons by done. set (r := join _ (t' :: ts)) in *.
    assert (Hr : r ≠ []).
    { intros E. by apply join_nil_inv in E. }
    split; intros c Hc.
    + destruct t as [|d t]; [done|]. simpl in Hc. injection Hc as <-.
      by inversion Ht.
    + rewrite app_assoc, last_app in Hc.
      destruct (last r) eqn:El.
      * injection Hc as <-. by apply IH.
      * by apply last_None in El.
Qed.

Lemma split_from_token cur t s :
  Forall (λ c, isspace c = false) t →
  split_from cur (t ++ s) = split_from (reverse t ++ cur) s.
Proof.
  revert cur. induction t as [|c t IH]; intros cur Ht; [done|].
  apply Forall_cons in Ht as [Hc Ht]. simpl. rewrite Hc, IH by done.
  by rewrite reverse_cons, <-app_assoc.
Qed.

Lemma split_from_end cur : cur ≠ [] → split_from cur [] = [reverse cur].
Proof. by destruct cur. Qed.

Lemma split_from_blank cur s :
  cur ≠ [] → split_from cur (lit " " ++ s) = reverse cur :: split_from [] s.
Proof. by destruct cur. Qed.

Lemma reverse_nonempty s : s ≠ [] → reverse s ≠ [].
Proof.
  intros Hs E. apply Hs. by rewrite <-(reverse_involutive s), E.
Qed.

(** Splitting what was joined with single blanks gives the tokens back. *)
Lemma split_join ts : Forall token ts → split (join (lit " ") ts) = ts.
Proof.
  unfold split. induction 1 as [|t ts [Hne Ht] Hts IH]; [done|].
  apply reverse_nonempty in Hne. destruct ts as [|t' ts].
  - simpl. rewrite <-(app_nil_r t) at 1.
    rewrite split_from_token, app_nil_r, split_from_end by done.
    by rewrite reverse_involutive.
  - rewrite join_cons by done.
    rewrite split_from_token, app_nil_r, split_from_blank by done.
    by rewrite reverse_involutive, IH.
Qed.

End strings.

(** ** The store *)

Section store.

Implicit Types (st : store) (chat : Z) (tasks : list task) (t : task).

Lemma get_tasks_for_list chat st :
  (get_tasks_for chat st).1 = snapshot st chat.
Proof. unfold get_tasks_for, snapshot. by destruct (st !! chat). Qed.

Lemma get_tasks_for_store chat st c :
  snapshot (get_tasks_for chat st).2 c = snapshot st c.
Proof.
  unfold get_tasks_for, snapshot. destruct (st !! chat) eqn:E; simpl; [done|].
  destruct (decide (chat = c)) as [->|Hne].
  - by rewrite lookup_insert_eq, E.
  - by rewrite lookup_insert_ne.
Qed.

(** Looking a chat up and storing a list for it afterwards is the same as
    storing the list. *)
Lemma get_tasks_for_insert chat st tasks :
  <[chat := tasks]> (get_tasks_for chat st).2 = <[chat := tasks]> st.
Proof.
  unfold get_tasks_for. destruct (st !! chat); simpl; [done|].
  apply insert_insert_eq.
Qed.

Lemma get_tasks_for_known chat st t tasks :
  snapshot st chat = t :: tasks → get_tasks_for chat st = (t :: tasks, st).
Proof.
  unfold get_tasks_for, snapshot. destruct (st !! chat); simpl; [|done].
  by intros ->.
Qed.

Lemma snapshot_insert chat st tasks : snapshot (<[chat := tasks]> st) chat = tasks.
Proof. unfold snapshot. by rewrite lookup_insert_eq. Qed.

Lemma snapshot_insert_ne chat c st tasks :
  chat ≠ c → snapshot (<[chat := tasks]> st) c = snapshot st c.
Proof. intros. unfold snapshot. by rewrite lookup_insert_ne. Qed.

Lemma len_nonneg {A} (l : list A) : 0 ≤ len l.
Proof. unfold len. lia. Qed.

(** A position in [[1, len]] names an element, at the index one less. *)
Lemma position_in_range {A} (l : list A) p :
  1 ≤ p ≤ len l →
  position l (p - 1) = Some (Z.to_nat (p - 1)) ∧ is_Some (l !! Z.to_nat (p - 1)).
Proof.
  intros Hp. unfold position.
  destruct (Z.ltb_spec (p - 1) 0); [lia|].
  destruct (Z.leb_spec 0 (p - 1)); [|lia].
  destruct (Z.ltb_spec (p - 1) (len l)); [|lia].
  split; [done|]. apply lookup_lt_is_Some. unfold len in *. lia.
Qed.

End store.

(** ** Commands that take a task number *)

Section numbered.

Implicit Types (st : store) (u : update) (a : str) (rest args : list str) (p : Z).

(** [/goto] with a number inside the list: a reply to the message the task
    came from, and the store as it was. *)
Lemma goto_task_in_range u a rest st p :
  isdigit a = true → int a = Some p →
  1 ≤ p ≤ len (snapshot st (effective_chat_id u)) →
  ∃ t, snapshot st (effective_chat_id u) !! Z.to_nat (p - 1) = Some t ∧
       goto_task u (a :: rest) st =
         (Replied {| text := pointer_text (added_by t);
                     reply_to_message_id := Some (msg_id t);
                     parse_mode := None |}, st).
Proof.
  intros Hdig Hint Hp. set (chat := effective_chat_id u) in *.
  destruct (position_in_range _ p Hp) as [Hpos [t Ht]].
  exists t. split; [done|].
  destruct (snapshot st chat) as [|t0 tasks] eqn:Hsnap.
  { unfold len in Hp. simpl in Hp. lia. }
  unfold goto_task. fold chat. rewrite (get_tasks_for_known _ _ _ _ Hsnap).
  unfold no_number. rewrite Hdig. simpl negb. cbv iota. simpl hd. rewrite Hint.
  destruct (Z.ltb_spec (p - 1) 0); [lia|].
  destruct (Z.geb_spec (p - 1) (len (t0 :: tasks))); [lia|]. simpl orb. cbv iota.
  unfold getitem. rewrite Hpos, Ht. by destruct t as [[??]?].
Qed.

(** [/done] with a number inside the list: the task at that position is
    taken out of the chat's list and named in the reply. *)
Lemma done_task_in_range u a rest st p :
  isdigit a = true → int a = Some p →
  1 ≤ p ≤ len (snapshot st (effective_chat_id u)) →
  ∃ t, snapshot st (effective_chat_id u) !! Z.to_nat (p - 1) = Some t ∧
       done_task u (a :: rest) st =
         (Replied (plain (completed_text (task_text t) (added_by t))),
          <[effective_chat_id u :=
              delete (Z.to_nat (p - 1)) (snapshot st (effective_chat_id u))]> st).
Proof.
  intros Hdig Hint Hp. set (chat := effective_chat_id u) in *.
  destruct (position_in_range _ p Hp) as [Hpos [t Ht]].
  exists t. split; [done|].
  destruct (snapshot st chat) as [|t0 tasks] eqn:Hsnap.
  { unfold len in Hp. simpl in Hp. lia. }
  unfold done_task. fold chat. rewrite (get_tasks_for_known _ _ _ _ Hsnap).
  unfold no_number. rewrite Hdig. simpl negb. cbv iota. simpl hd. rewrite Hint.
  destruct (Z.ltb_spec (p - 1) 0); [lia|].
  destruct (Z.geb_spec (p - 1) (len (t0 :: tasks))); [lia|]. simpl orb. cbv iota.
  unfold pop. rewrite Hpos, Ht. by destruct t as [[??]?].
Qed.

(** [/done] with a number outside the list. *)
Lemma done_task_not_in_range u a rest st p :
  isdigit a = true → int a = Some p →
  p < 1 ∨ len (snapshot st (effective_chat_id u)) < p →
  done_task u (a :: rest) st =
    (Replied (plain (match snapshot st (effective_chat_id u) with
                     | [] => nothing_to_complete_text
                     | _ :: _ => done_range_text
                     end)),
     (get_tasks_for (effective_chat_id u) st).2).
Proof.
  intros Hdig Hint Hp. set (chat := effective_chat_id u) in *.
  unfold done_task. fold chat.
  pose proof (get_tasks_for_list chat st) as Hl.
  destruct (get_tasks_for chat st) as [tasks st'].
  simpl in Hl. subst tasks. destruct (snapshot st chat) as [|t0 tasks]; [done|].
  unfold no_number. rewrite Hdig. simpl negb. cbv iota. simpl hd. rewrite Hint.
  destruct (Z.ltb_spec (p - 1) 0); [done|].
  destruct (Z.geb_spec (p - 1) (len (t0 :: tasks))); [done|]. lia.
Qed.

(** With nothing stored for the chat, the first check answers. *)
Lemma goto_task_empty u args st :
  snapshot st (effective_chat_id u) = [] →
  goto_task u args st =
    (Replied (plain no_tasks_text), (get_tasks_for (effective_chat_id u) st).2).
Proof.
  intros Hs. unfold goto_task.
  pose proof (get_tasks_for_list (effective_chat_id u) st) as Hl.
  destruct (get_tasks_for _ st) as [tasks st']. simpl in Hl.
  by rewrite Hl, Hs.
Qed.

Lemma done_task_empty u args st :
  snapshot st (effective_chat_id u) = [] →
  done_task u args st =
    (Replied (plain nothing_to_complete_text),
     (get_tasks_for (effective_chat_id u) st).2).
Proof.
  intros Hs. unfold done_task.
  pose proof (get_tasks_for_list (effective_chat_id u) st) as Hl.
  destruct (get_tasks_for _ st) as [tasks st']. simpl in Hl.
  by rewrite Hl, Hs.
Qed.

End numbered.

(** ** The claims about numbered commands *)

(** C8. For a chat with at least one task and a parsed position [p] in
    [[1, len]], [/goto] answers with the pointer text, sets
    [reply_to_message_id] to the [msg_id] of the task at position [p], and
    returns the store it was given: no chat's list is changed. *)
Theorem goto_task_points_at_source u a rest st p :
  isdigit a = true → int a = Some p →
  1 ≤ p ≤ len (snapshot st (effective_chat_id u)) →
  ∃ t st',
    snapshot st (effective_chat_id u) !! Z.to_nat (p - 1) = Some t ∧
    goto_task u (a :: rest) st =
      (Replied {| text := pointer_text (added_by t);
                  reply_to_message_id := Some (msg_id t);
                  parse_mode := None |}, st') ∧
    st' = st ∧
    ∀ chat, snapshot st' chat = snapshot st chat.
Proof.
  intros Hdig Hint Hp.
  destruct (goto_task_in_range u a rest st p Hdig Hint Hp) as (t & Ht & Hrun).
  by exists t, st.
Qed.

Lemma goto_task_points_at_source_witness :
  ∃ t st',
    snapshot two_chats 1 !! Z.to_nat (2 - 1) = Some t ∧
    goto_task (from_ann 20) [lit "2"] two_chats =
      (Replied {| text := pointer_text (added_by t);
                  reply_to_message_id := Some (msg_id t);
                  parse_mode := None |}, st') ∧
    st' = two_chats ∧
    ∀ chat, snapshot st' chat = snapshot two_chats chat.
Proof.
  apply (goto_task_points_at_source (from_ann 20) (lit "2") [] two_chats 2).
  - reflexivity.
  - reflexivity.
  - vm_compute. split; discriminate.
Defined.

(** C3. For a chat with [len >= 1] tasks and a position [p] in [[1, len]],
    [/done] takes out the task that was at position [p] and names it in
    its reply; the chat's list is then one shorter, the tasks before [p]
    keep their positions and each later task moves down by one, so that
    asking for [p] again removes what was the next task. *)
Theorem done_task_removes_position u a rest st p :
  isdigit a = true → int a = Some p →
  1 ≤ p ≤ len (snapshot st (effective_chat_id u)) →
  ∃ t st',
    snapshot st (effective_chat_id u) !! Z.to_nat (p - 1) = Some t ∧
    done_task u (a :: rest) st =
      (Replied (plain (completed_text (task_text t) (added_by t))), st') ∧
    snapshot st' (effective_chat_id u) =
      take (Z.to_nat (p - 1)) (snapshot st (effective_chat_id u))
      ++ drop (Z.to_nat p) (snapshot st (effective_chat_id u)) ∧
    len (snapshot st' (effective_chat_id u)) =
      len (snapshot st (effective_chat_id u)) - 1 ∧
    (∀ i, (i < Z.to_nat (p - 1))%nat →
       snapshot st' (effective_chat_id u) !! i =
       snapshot st (effective_chat_id u) !! i) ∧
    (∀ i, (Z.to_nat (p - 1) ≤ i)%nat →
       snapshot st' (effective_chat_id u) !! i =
       snapshot st (effective_chat_id u) !! S i) ∧
    (∀ next, snapshot st (effective_chat_id u) !! Z.to_nat p = Some next →
       (done_task u (a :: rest) st').1 =
       Replied (plain (completed_text (task_text next) (added_by next)))).
Proof.
  intros Hdig Hint Hp. set (chat := effective_chat_id u) in *.
  destruct (done_task_in_range u a rest st p Hdig Hint Hp) as (t & Ht & Hrun).
  fold chat in Ht, Hrun. set (tasks := snapshot st chat) in *.
  set (st' := <[chat := delete (Z.to_nat (p - 1)) tasks]> st) in *.
  assert (Hsnap : snapshot st' chat = delete (Z.to_nat (p - 1)) tasks)
    by apply snapshot_insert.
  assert (Hlt : (Z.to_nat (p - 1) < length tasks)%nat)
    by (by apply lookup_lt_Some in Ht).
  exists t, st'. rewrite Hsnap. repeat split; try done.
  - rewrite delete_take_drop. do 2 f_equal. lia.
  - unfold len. rewrite length_delete by eauto. lia.
  - intros i Hi. by apply list_lookup_delete_lt.
  - intros i Hi. by apply list_lookup_delete_ge.
  - intros next Hnext.
    assert (Hp' : 1 ≤ p ≤ len (snapshot st' (effective_chat_id u))).
    { fold chat. rewrite Hsnap. unfold len. rewrite length_delete by eauto.
      apply lookup_lt_Some in Hnext. lia. }
    destruct (done_task_in_range u a rest st' p Hdig Hint Hp')
      as (t' & Ht' & ->). simpl. fold chat in Ht'.
    rewrite Hsnap, list_lookup_delete_ge in Ht' by lia.
    replace (S (Z.to_nat (p - 1))) with (Z.to_nat p) in Ht' by lia.
    by simplify_eq.
Qed.

Lemma done_task_removes_position_witness :
  ∃ t st',
    snapshot two_chats 1 !! Z.to_nat (1 - 1) = Some t ∧
    done_task (from_ann 20) [lit "1"] two_chats =
      (Replied (plain (completed_text (task_text t) (added_by t))), st') ∧
    snapshot st' 1 =
      take (Z.to_nat (1 - 1)) (snapshot two_chats 1)
      ++ drop (Z.to_nat 1) (snapshot two_chats 1) ∧
    len (snapshot st' 1) = len (snapshot two_chats 1) - 1 ∧
    (∀ i, (i < Z.to_nat (1 - 1))%nat →
       snapshot st' 1 !! i = snapshot two_chats 1 !! i) ∧
    (∀ i, (Z.to_nat (1 - 1) ≤ i)%nat →
       snapshot st' 1 !! i = snapshot two_chats 1 !! S i) ∧
    (∀ next, snapshot two_chats 1 !! Z.to_nat 1 = Some next →
       (done_task (from_ann 20) [lit "1"] st').1 =
       Replied (plain (completed_text (task_text next) (added_by next)))).
Proof.
  apply (done_task_removes_position (from_ann 20) (lit "1") [] two_chats 1).
  - reflexivity.
  - reflexivity.
  - vm_compute. split; discriminate.
Defined.

(** C4. For a position [p] outside [[1, len]], on an empty list as well,
    [/done] answers that the number does not exist (that there is nothing
    to complete when the list is empty) and every chat's list is the same
    after the call as before it. *)
Theorem done_task_out_of_range u a rest st p :
  isdigit a = true → int a = Some p →
  p < 1 ∨ len (snapshot st (effective_chat_id u)) < p →
  ∃ st',
    done_task u (a :: rest) st =
      (Replied (plain (match snapshot st (effective_chat_id u) with
                       | [] => nothing_to_complete_text
                       | _ :: _ => done_range_text
                       end)), st') ∧
    ∀ chat, snapshot st' chat = snapshot st chat.
Proof.
  intros Hdig Hint Hp. eexists. split.
  - by apply done_task_not_in_range with p.
  - intros chat. apply get_tasks_for_store.
Qed.

Lemma done_task_out_of_range_witness :
  ∃ st',
    done_task (from_ann 20) [lit "3"] two_chats =
      (Replied (plain (match snapshot two_chats 1 with
                       | [] => nothing_to_complete_text
                       | _ :: _ => done_range_text
                       end)), st') ∧
    ∀ chat, snapshot st' chat = snapshot two_chats chat.
Proof.
  apply (done_task_out_of_range (from_ann 20) (lit "3") [] two_chats 3).
  - reflexivity.
  - reflexivity.
  - right. vm_compute. reflexivity.
Defined.

(** C9. When the chat's list is empty, [/goto] and [/done] give their
    no-tasks answer whatever the arguments are, none or not a number
    included: the empty-list check comes before the argument check, so the
    invalid-argument answer is never given for an empty list. *)
Theorem empty_list_answers_first u args st :
  snapshot st (effective_chat_id u) = [] →
  (goto_task u args st).1 = Replied (plain no_tasks_text) ∧
  (done_task u args st).1 = Replied (plain nothing_to_complete_text) ∧
  (goto_task u args st).1 ≠ Replied (plain goto_usage_text) ∧
  (done_task u args st).1 ≠ Replied (plain done_usage_text).
Proof.
  intros Hs. rewrite goto_task_empty, done_task_empty by done. simpl.
  repeat split; try done; intros [=].
Qed.

Lemma empty_list_answers_first_witness :
  (goto_task (from_ann 20) [lit "x"] tasks_by_chat).1 = Replied (plain no_tasks_text) ∧
  (done_task (from_ann 20) [lit "x"] tasks_by_chat).1 = Replied (plain nothing_to_complete_text) ∧
  (goto_task (from_ann 20) [lit "x"] tasks_by_chat).1 ≠ Replied (plain goto_usage_text) ∧
  (done_task (from_ann 20) [lit "x"] tasks_by_chat).1 ≠ Replied (plain done_usage_text).
Proof.
  apply (empty_list_answers_first (from_ann 20) [lit "x"] tasks_by_chat).
  reflexivity.
Defined.

(** C7. Whatever is stored for the chat (nothing, an empty list or tasks),
    [/clear] answers with its confirmation, the chat's list is empty
    afterwards, the other chats keep theirs, and clearing again leaves the
    store as the first clearing left it. *)
Theorem clear_tasks_empties u args args' st :
  (clear_tasks u args st).1 = Replied (plain cleared_text) ∧
  snapshot (clear_tasks u args st).2 (effective_chat_id u) = [] ∧
  (∀ chat, chat ≠ effective_chat_id u →
     snapshot (clear_tasks u args st).2 chat = snapshot st chat) ∧
  clear_tasks u args' (clear_tasks u args st).2 = clear_tasks u args st.
Proof.
  unfold clear_tasks. simpl. repeat split.
  - apply snapshot_insert.
  - intros chat Hne. by apply snapshot_insert_ne.
  - f_equal. apply insert_insert_eq.
Qed.

(** ** Adding *)

Section adding.

Implicit Types (st : store) (u : update) (args : list str) (c : command).

Lemma add_nothing u args st :
  truthy (strip (join (lit " ") args)) = false →
  add u args st = (Replied (plain add_usage_text), st).
Proof. intros H. unfold add. by rewrite H. Qed.

(** [/add] with something to add: the task goes to the end of the chat's
    list. *)
Lemma add_something u args st :
  truthy (strip (join (lit " ") args)) = true →
  add u args st =
    (Replied (plain (added_text (strip (join (lit " ") args))
                                (display_name (effective_user u)))),
     <[effective_chat_id u :=
         snapshot st (effective_chat_id u)
         ++ [(strip (join (lit " ") args), message_id u,
              display_name (effective_user u))]]> st).
Proof.
  intros H. unfold add. rewrite H. simpl negb. cbv iota.
  pose proof (get_tasks_for_list (effective_chat_id u) st) as Hl.
  pose proof (get_tasks_for_insert (effective_chat_id u) st) as Hi.
  destruct (get_tasks_for _ st) as [tasks st']. simpl in Hl, Hi.
  by rewrite Hl, Hi.
Qed.

(** What [/add] makes of the text after the command: its tokens with one
    blank between them. *)
Lemma strip_join_split s :
  strip (join (lit " ") (split s)) = join (lit " ") (split s).
Proof. apply strip_fixed, join_tokens_trimmed, split_tokens. Qed.

Lemma join_split_truthy s :
  truthy (strip s) = true → truthy (join (lit " ") (split s)) = true.
Proof.
  rewrite !truthy_true. intros Hs Hj. apply Hs, split_nil.
  by apply join_nil_inv in Hj; [|apply split_tokens].
Qed.

Lemma handle_add c st :
  commandName c = lit "add" → truthy (strip (argString c)) = true →
  handle c st =
    Some (Replied (plain (added_text (task_text (new_task c)) (added_by (new_task c)))),
          <[chatId c := snapshot st (chatId c) ++ [new_task c]]> st).
Proof.
  intros Hname Hs. unfold handle. rewrite Hname.
  change (handler_for (lit "add") handlers) with (Some add). cbv beta iota.
  rewrite add_something; rewrite strip_join_split; [done|].
  by apply join_split_truthy.
Qed.

Lemma run_app cs1 cs2 st : run (cs1 ++ cs2) st = run cs2 (run cs1 st).
Proof.
  revert st. induction cs1 as [|c cs1 IH]; intros st; simpl; [done|].
  destruct (handle c st) as [[o st']|]; apply IH.
Qed.

Lemma run_adds chat cs st :
  Forall (adds_to chat) cs →
  snapshot (run cs st) chat = snapshot st chat ++ map new_task cs.
Proof.
  intros Hcs. revert st.
  induction Hcs as [|c cs (Hname & Hchat & Hs) _ IH]; intros st; simpl.
  - by rewrite app_nil_r.
  - rewrite (handle_add c st Hname Hs), IH, Hchat, snapshot_insert.
    by rewrite <-app_assoc.
Qed.

(** When the text after the command is already tokens with single blanks
    between them, [/add] stores it as it is. *)
Lemma new_task_single_spaced c ts :
  Forall token ts → argString c = join (lit " ") ts →
  task_text (new_task c) = argString c.
Proof.
  intros Hts Harg. unfold new_task, task_text. simpl.
  by rewrite Harg, split_join.
Qed.

End adding.

(** C2, as the code has it. For every [argString] with something left after
    trimming, [/add] appends a task whose text is the whitespace-separated
    tokens of [argString] with one blank between them (whitespace at the
    ends removed and every run of whitespace inside replaced by a single
    blank), and the confirmation echoes that text. *)
Theorem add_stores_joined_tokens c st :
  commandName c = lit "add" → truthy (strip (argString c)) = true →
  ∃ text,
    text = join (lit " ") (split (argString c)) ∧
    handle c st =
      Some (Replied (plain (added_text text (display_name (sender c)))),
            <[chatId c := snapshot st (chatId c)
                           ++ [(text, sourceMessageId c, display_name (sender c))]]> st) ∧
    Forall token (split (argString c)) ∧
    text ≠ [] ∧ trimmed text.
Proof.
  intros Hname Hs. eexists. split; [reflexivity|].
  split; [by apply handle_add|]. split; [apply split_tokens|]. split.
  - by apply truthy_true, join_split_truthy.
  - apply join_tokens_trimmed, split_tokens.
Qed.

Lemma add_stores_joined_tokens_witness :
  ∃ text,
    text = join (lit " ") (split (argString add_buy_milk)) ∧
    handle add_buy_milk tasks_by_chat =
      Some (Replied (plain (added_text text (display_name (sender add_buy_milk)))),
            <[chatId add_buy_milk :=
                snapshot tasks_by_chat (chatId add_buy_milk)
                ++ [(text, sourceMessageId add_buy_milk,
                     display_name (sender add_buy_milk))]]> tasks_by_chat) ∧
    Forall token (split (argString add_buy_milk)) ∧
    text ≠ [] ∧ trimmed text.
Proof.
  apply (add_stores_joined_tokens add_buy_milk tasks_by_chat); reflexivity.
Defined.

(** C2, as stated, fails: the text stored for [/add  Buy  milk] is
    [Buy milk] with one blank, not the trimmed argument, which keeps both. *)
Lemma add_collapses_inner_whitespace :
  truthy (strip (argString add_buy_milk)) = true ∧
  ∃ o st t,
    handle add_buy_milk tasks_by_chat = Some (o, st) ∧
    snapshot st 1 = [t] ∧
    task_text t = lit "Buy milk" ∧
    strip (argString add_buy_milk) = lit "Buy  milk" ∧
    task_text t ≠ strip (argString add_buy_milk).
Proof.
  split; [reflexivity|].
  eexists _, _, _. split; [reflexivity|]. split; [reflexivity|].
  split; [reflexivity|]. split; [reflexivity|]. vm_compute. discriminate.
Qed.

(** C5, as the code has it. For [n] [/add] commands on one chat, from any
    store in which the chat has [k] tasks, the chat's list afterwards is the
    earlier tasks followed by the added ones in call order; right after the
    [i]-th of them the list has [k + i] tasks and the added task is the one
    at position [k + i], the last.  (The index [i] below counts from 0.) *)
Theorem adds_keep_call_order chat cs st :
  Forall (adds_to chat) cs →
  snapshot (run cs st) chat = snapshot st chat ++ map new_task cs ∧
  ∀ i c, cs !! i = Some c →
    len (snapshot (run (take (S i) cs) st) chat)
      = len (snapshot st chat) + Z.of_nat (S i) ∧
    getitem (snapshot (run (take (S i) cs) st) chat)
            (len (snapshot st chat) + Z.of_nat (S i) - 1) = Some (new_task c) ∧
    last (snapshot (run (take (S i) cs) st) chat) = Some (new_task c).
Proof.
  intros Hcs. split; [by apply run_adds|].
  intros i c Hi.
  rewrite (run_adds chat (take (S i) cs) st) by by apply Forall_take.
  rewrite (take_S_r _ _ _ Hi), map_app. simpl map.
  set (k := snapshot st chat). set (new := map new_task (take i cs)).
  assert (Hn : length new = i).
  { unfold new. rewrite length_map, length_take.
    apply lookup_lt_Some in Hi. lia. }
  assert (Hlen : len (k ++ new ++ [new_task c]) = len k + Z.of_nat (S i)).
  { unfold len. rewrite !length_app, Hn. simpl. lia. }
  split; [done|]. split.
  - unfold getitem, position. rewrite Hlen.
    pose proof (len_nonneg k).
    destruct (Z.ltb_spec (len k + Z.of_nat (S i) - 1) 0); [lia|].
    destruct (Z.leb_spec 0 (len k + Z.of_nat (S i) - 1)); [|lia].
    destruct (Z.ltb_spec (len k + Z.of_nat (S i) - 1) (len k + Z.of_nat (S i))); [|lia].
    simpl. rewrite app_assoc.
    rewrite lookup_app_r; rewrite length_app, Hn; unfold len; [|lia].
    by replace (_ - _)%nat with 0%nat by lia.
  - by rewrite app_assoc, last_snoc.
Qed.

Lemma adds_keep_call_order_witness :
  snapshot (run [add_buy_milk; add_buy_milk] two_chats) 1
    = snapshot two_chats 1 ++ map new_task [add_buy_milk; add_buy_milk] ∧
  ∀ i c, [add_buy_milk; add_buy_milk] !! i = Some c →
    len (snapshot (run (take (S i) [add_buy_milk; add_buy_milk]) two_chats) 1)
      = len (snapshot two_chats 1) + Z.of_nat (S i) ∧
    getitem (snapshot (run (take (S i) [add_buy_milk; add_buy_milk]) two_chats) 1)
            (len (snapshot two_chats 1) + Z.of_nat (S i) - 1) = Some (new_task c) ∧
    last (snapshot (run (take (S i) [add_buy_milk; add_buy_milk]) two_chats) 1)
      = Some (new_task c).
Proof.
  apply (adds_keep_call_order 1 [add_buy_milk; add_buy_milk] two_chats).
  repeat constructor.
Defined.

(** C5, as stated, fails: nothing [/add] gives back is a position.  The
    same command handled twice gets the same answer both times, while its
    task lands at position 1 the first time and at position 2 the second. *)
Lemma add_returns_no_position :
  ∃ o1 st1 o2 st2,
    handle add_buy_milk tasks_by_chat = Some (o1, st1) ∧
    handle add_buy_milk st1 = Some (o2, st2) ∧
    len (snapshot st1 1) = 1 ∧ len (snapshot st2 1) = 2 ∧
    o1 = o2 ∧
    ∀ position_of : outcome → Z, ¬ (position_of o1 = 1 ∧ position_of o2 = 2).
Proof.
  eexists _, _, _, _. split; [reflexivity|]. split; [reflexivity|].
  split; [reflexivity|]. split; [reflexivity|]. split; [reflexivity|].
  intros f [H1 H2]. rewrite H1 in H2. discriminate.
Qed.

(** ** Stored tasks stay well formed *)

Section invariant.

Implicit Types (st : store) (u : update) (args : list str) (c : command).

Lemma store_ok_empty : store_ok tasks_by_chat.
Proof. intros chat t. unfold snapshot, tasks_by_chat. by rewrite lookup_empty, elem_of_nil. Qed.

Lemma store_ok_insert chat tasks st :
  store_ok st → Forall well_formed tasks → store_ok (<[chat := tasks]> st).
Proof.
  intros Hst Htasks c t. destruct (decide (chat = c)) as [<-|Hne].
  - rewrite snapshot_insert. by apply Forall_forall.
  - rewrite snapshot_insert_ne by done. apply Hst.
Qed.

Lemma store_ok_get_tasks_for chat st :
  store_ok st → store_ok (get_tasks_for chat st).2.
Proof. intros Hst c t. rewrite get_tasks_for_store. apply Hst. Qed.

Lemma store_ok_snapshot chat st : store_ok st → Forall well_formed (snapshot st chat).
Proof. intros Hst. apply Forall_forall. apply Hst. Qed.

Lemma add_store_ok u args st : store_ok st → store_ok (add u args st).2.
Proof.
  intros Hst. destruct (truthy (strip (join (lit " ") args))) eqn:E.
  - rewrite add_something by done. apply store_ok_insert; [done|].
    apply Forall_app. split; [by apply store_ok_snapshot|].
    constructor; [|constructor]. split; simpl.
    + by apply truthy_true.
    + apply strip_trimmed.
  - by rewrite add_nothing.
Qed.

Lemma list_tasks_store_ok u args st : store_ok st → store_ok (list_tasks u args st).2.
Proof.
  intros Hst. unfold list_tasks.
  pose proof (store_ok_get_tasks_for (effective_chat_id u) st Hst) as H.
  destruct (get_tasks_for _ st) as [tasks st']. by destruct tasks.
Qed.

Lemma goto_task_store_ok u args st : store_ok st → store_ok (goto_task u args st).2.
Proof.
  intros Hst. unfold goto_task.
  pose proof (store_ok_get_tasks_for (effective_chat_id u) st Hst) as H.
  destruct (get_tasks_for _ st) as [tasks st']. simpl in H.
  destruct tasks as [|t0 tasks]; [done|].
  destruct (no_number args); [done|].
  destruct (int _) as [n|]; [|done].
  destruct (_ || _); [done|].
  by destruct (getitem _ _) as [[[??]?]|].
Qed.

Lemma done_task_store_ok u args st : store_ok st → store_ok (done_task u args st).2.
Proof.
  intros Hst. unfold done_task.
  pose proof (store_ok_get_tasks_for (effective_chat_id u) st Hst) as H.
  pose proof (get_tasks_for_list (effective_chat_id u) st) as Hl.
  destruct (get_tasks_for _ st) as [tasks st']. simpl in H, Hl.
  destruct tasks as [|t0 tasks]; [done|].
  destruct (no_number args); [done|].
  destruct (int _) as [n|]; [|done].
  destruct (_ || _); [done|].
  unfold pop. destruct (position _ _) as [j|]; [|done].
  destruct (_ !! j) as [[[??]?]|]; [|done]. simpl.
  apply store_ok_insert; [done|].
  apply Forall_forall. intros t Ht. apply list_elem_of_delete_inv in Ht.
  apply (Hst (effective_chat_id u)). by rewrite <-Hl.
Qed.

Lemma clear_tasks_store_ok u args st : store_ok st → store_ok (clear_tasks u args st).2.
Proof. intros Hst. unfold clear_tasks. simpl. by apply store_ok_insert. Qed.

(** Every registered handler keeps the store well formed, whatever
    arguments it is given. *)
Lemma handlers_store_ok name h u args st :
  (name, h) ∈ handlers → store_ok st → store_ok (h u args st).2.
Proof.
  unfold handlers. rewrite !elem_of_cons, elem_of_nil.
  intros [H|[H|[H|[H|[H|[H|[H|[]]]]]]]] Hst; injection H as _ ->.
  - done.
  - done.
  - by apply add_store_ok.
  - by apply list_tasks_store_ok.
  - by apply goto_task_store_ok.
  - by apply done_task_store_ok.
  - by apply clear_tasks_store_ok.
Qed.

Lemma handler_for_elem_of name hs h :
  handler_for name hs = Some h → (name, h) ∈ hs.
Proof.
  induction hs as [|[n h'] hs IH]; simpl; [done|].
  case_bool_decide as Hn.
  - intros [= ->]. subst. by left.
  - intros H. right. by apply IH.
Qed.

Lemma handle_store_ok c st o st' :
  handle c st = Some (o, st') → store_ok st → store_ok st'.
Proof.
  unfold handle. destruct (handler_for _ _) as [h|] eqn:Hh; [|done].
  intros [= Hrun] Hst. apply handler_for_elem_of in Hh.
  pose proof (handlers_store_ok _ _ {| effective_chat_id := chatId c;
    message_id := sourceMessageId c; effective_user := sender c |}
    (split (argString c)) st Hh Hst) as H.
  by rewrite Hrun in H.
Qed.

Lemma run_store_ok cs st : store_ok st → store_ok (run cs st).
Proof.
  revert st. induction cs as [|c cs IH]; intros st Hst; simpl; [done|].
  destruct (handle c st) as [[o st']|] eqn:Hc; [|by apply IH].
  apply IH. by eapply handle_store_ok.
Qed.

End invariant.

(** C10. In every store reached from the empty one by any series of
    commands, every task of every chat has a non-empty text without
    whitespace at its ends. *)
Theorem reachable_tasks_are_trimmed cs chat t :
  t ∈ snapshot (run cs tasks_by_chat) chat →
  task_text t ≠ [] ∧
  (∀ c, head (task_text t) = Some c → isspace c = false) ∧
  (∀ c, last (task_text t) = Some c → isspace c = false).
Proof.
  intros Ht.
  destruct (run_store_ok cs tasks_by_chat store_ok_empty chat t Ht) as [? [??]].
  done.
Qed.

Lemma reachable_tasks_are_trimmed_witness :
  task_text (new_task add_buy_milk) ≠ [] ∧
  (∀ c, head (task_text (new_task add_buy_milk)) = Some c → isspace c = false) ∧
  (∀ c, last (task_text (new_task add_buy_milk)) = Some c → isspace c = false).
Proof.
  apply (reachable_tasks_are_trimmed [add_buy_milk] 1 (new_task add_buy_milk)).
  vm_compute. left.
Defined.

(** ** When a handler raises *)

Section raising.

Implicit Types (st : store) (u : update) (a : str) (args : list str).

Lemma index_in_range {A} (l : list A) i :
  0 ≤ i < len l → position l i = Some (Z.to_nat i) ∧ is_Some (l !! Z.to_nat i).
Proof.
  intros Hi. replace i with (i + 1 - 1) by lia.
  apply position_in_range. lia.
Qed.

(** [/goto] raises only from [int], on a first argument that [isdigit]
    lets through; the index it then uses is always inside the list. *)
Lemma goto_task_raises u args st e :
  (goto_task u args st).1 = Raised e →
  e = ValueError ∧ snapshot st (effective_chat_id u) ≠ [] ∧
  ∃ a rest, args = a :: rest ∧ isdigit a = true ∧ int a = None.
Proof.
  unfold goto_task.
  pose proof (get_tasks_for_list (effective_chat_id u) st) as Hl.
  destruct (get_tasks_for _ st) as [tasks st']. simpl in Hl. rewrite <-Hl.
  destruct tasks as [|t0 tasks]; [done|].
  destruct args as [|a rest]; [done|]. simpl no_number. simpl hd.
  destruct (isdigit a) eqn:Hdig; [|done]. simpl negb. cbv iota.
  destruct (int a) as [n|] eqn:Hint.
  - destruct (Z.ltb_spec (n - 1) 0); [done|].
    destruct (Z.geb_spec (n - 1) (len (t0 :: tasks))); [done|]. simpl orb. cbv iota.
    destruct (index_in_range (t0 :: tasks) (n - 1)) as [Hpos [t Ht]]; [lia|].
    unfold getitem. rewrite Hpos, Ht. by destruct t as [[??]?].
  - intros [= <-]. split; [done|]. split; [done|]. by exists a, rest.
Qed.

Lemma done_task_raises u args st e :
  (done_task u args st).1 = Raised e →
  e = ValueError ∧ snapshot st (effective_chat_id u) ≠ [] ∧
  ∃ a rest, args = a :: rest ∧ isdigit a = true ∧ int a = None.
Proof.
  unfold done_task.
  pose proof (get_tasks_for_list (effective_chat_id u) st) as Hl.
  destruct (get_tasks_for _ st) as [tasks st']. simpl in Hl. rewrite <-Hl.
  destruct tasks as [|t0 tasks]; [done|].
  destruct args as [|a rest]; [done|]. simpl no_number. simpl hd.
  destruct (isdigit a) eqn:Hdig; [|done]. simpl negb. cbv iota.
  destruct (int a) as [n|] eqn:Hint.
  - destruct (Z.ltb_spec (n - 1) 0); [done|].
    destruct (Z.geb_spec (n - 1) (len (t0 :: tasks))); [done|]. simpl orb. cbv iota.
    destruct (index_in_range (t0 :: tasks) (n - 1)) as [Hpos [t Ht]]; [lia|].
    unfold pop. rewrite Hpos, Ht. by destruct t as [[??]?].
  - intros [= <-]. split; [done|]. split; [done|]. by exists a, rest.
Qed.




End raising.

(** ** Numbers that [int] reads *)

Section numbers.

Implicit Types (s : str) (c : codepoint).

Lemma existsb_eqb_elem_of c (l : list codepoint) :
  existsb (N.eqb c) l = true → c ∈ l.
Proof.
  induction l as [|d l IH]; simpl; [done|].
  destruct (N.eqb_spec c d) as [->|_]; [by left|]. intros H. right. by apply IH.
Qed.

Lemma int_space_whitespace c : int_space c = true → c ∈ whitespace.
Proof.
  unfold int_space, isspace. destruct (c <? 127)%N.
  - intros H%existsb_eqb_elem_of. unfold whitespace.
    rewrite list_elem_of_In in *. simpl in *. tauto.
  - apply existsb_eqb_elem_of.
Qed.

Lemma whitespace_not_decimal : Forall (λ c, todecimal c = None) whitespace.
Proof. unfold whitespace. repeat constructor. Qed.

Lemma decimal_not_space c : is_Some (todecimal c) → int_space c = false.
Proof.
  intros [d Hd]. destruct (int_space c) eqn:E; [|done].
  apply int_space_whitespace in E.
  pose proof (proj1 (Forall_forall _ _) whitespace_not_decimal c E). congruence.
Qed.

Lemma decimal_not_mark c :
  is_Some (todecimal c) → c ≠ 0x2D%N ∧ c ≠ 0x2B%N ∧ c ≠ 0x5F%N.
Proof. intros [d Hd]. repeat split; intros ->; by vm_compute in Hd. Qed.

Lemma skip_int_space_decimal s : decimal s → skip_int_space s = s.
Proof.
  destruct s as [|c s]; [done|]. intros [Hc _]%Forall_cons. simpl.
  by rewrite decimal_not_space.
Qed.

Lemma literal_value_decimal s acc after_digit :
  decimal s → s ≠ [] ∨ after_digit = true →
  is_Some (literal_value acc after_digit s).
Proof.
  revert acc after_digit. induction s as [|c s IH]; intros acc b Hs Hne; simpl.
  - destruct Hne as [Hne|Hb]; [done|]. rewrite Hb. by eexists.
  - apply Forall_cons in Hs as [Hc Hs].
    destruct (decimal_not_mark c Hc) as (_ & _ & Hu).
    destruct (N.eqb_spec c 0x5F%N) as [|_]; [done|].
    destruct Hc as [d ->]. apply IH; auto.
Qed.

(** A non-empty run of decimal digits within the length limit is a number
    for [int]. *)
Lemma int_decimal s :
  decimal s → s ≠ [] → (length s ≤ int_max_str_digits)%nat → is_Some (int s).
Proof.
  intros Hs Hne Hlen. unfold int. rewrite skip_int_space_decimal by done.
  destruct s as [|c s]; [done|].
  pose proof (proj1 (Forall_cons _ _ _) Hs) as [Hc _].
  destruct (decimal_not_mark c Hc) as (Hm & Hp & _).
  destruct (N.eqb_spec c 0x2D%N) as [|_]; [done|].
  destruct (N.eqb_spec c 0x2B%N) as [|_]; [done|].
  rewrite skip_int_space_decimal by by apply Forall_reverse.
  rewrite reverse_involutive.
  destruct (literal_value_decimal (c :: s) 0%N false Hs) as [v ->]; [by left|].
  unfold count_digits.
  destruct (_ <? _)%nat eqn:E; [|by eexists].
  apply Nat.ltb_lt in E.
  match type of E with
  | (_ < length (filter ?P ?l))%nat => pose proof (length_filter P l)
  end. unfold str in *. lia.
Qed.

Lemma decimal_isdigit s : decimal s → s ≠ [] → isdigit s = true.
Proof.
  intros Hs Hne. destruct s as [|c s]; [done|]. unfold isdigit.
  apply forallb_forall. intros d Hd.
  apply list_elem_of_In in Hd.
  destruct (proj1 (Forall_forall _ _) Hs d Hd) as [v Hv].
  unfold isdigit_char. by rewrite Hv.
Qed.

(** Written in decimal digits, the task number never makes [/goto] or
    [/done] raise. *)
Lemma numbered_commands_reply u a rest st :
  decimal a → a ≠ [] → (length a ≤ int_max_str_digits)%nat →
  (∃ r, (goto_task u (a :: rest) st).1 = Replied r) ∧
  (∃ r, (done_task u (a :: rest) st).1 = Replied r).
Proof.
  intros Ha Hne Hlen. destruct (int_decimal a Ha Hne Hlen) as [n Hn].
  split.
  - destruct (goto_task u (a :: rest) st).1 as [r|e] eqn:E; [by eexists|].
    apply goto_task_raises in E as (_ & _ & a' & rest' & [= <- <-] & _ & Hi).
    congruence.
  - destruct (done_task u (a :: rest) st).1 as [r|e] eqn:E; [by eexists|].
    apply done_task_raises in E as (_ & _ & a' & rest' & [= <- <-] & _ & Hi).
    congruence.
Qed.

End numbers.

(** C1. The claim fails on the code for a task number written with a digit
    that is not a decimal, such as the superscript two: [isdigit] lets it
    through, [int] raises [ValueError], and the exception leaves [/done] and
    [/goto] instead of a reply. *)
Theorem superscript_two_raises :
  isdigit (argString (superscript_two (lit "done"))) = true ∧
  int (argString (superscript_two (lit "done"))) = None ∧
  handle (superscript_two (lit "done")) two_chats = Some (Raised ValueError, two_chats) ∧
  handle (superscript_two (lit "goto")) two_chats = Some (Raised ValueError, two_chats).
Proof. repeat split; reflexivity. Qed.

(** * Further properties of the handlers *)

(** ** Numbers as [/list] prints them *)

Section printed_numbers.

Implicit Types (s : str) (d : Decimal.uint) (n a : nat).

Lemma uint_codepoints_decimal d : decimal (uint_codepoints d).
Proof.
  induction d; simpl; constructor; try done; by eexists.
Qed.

Lemma to_uint_not_nil n : Nat.to_uint n ≠ Decimal.Nil.
Proof.
  intros E. pose proof (DecimalNat.Unsigned.of_to n) as H.
  rewrite E in H. simpl in H. subst n. discriminate E.
Qed.

(** Reading the digits of [d] after a number [a] continues the number. *)
Lemma literal_value_uint d a after_digit :
  d ≠ Decimal.Nil ∨ after_digit = true →
  literal_value (N.of_nat a) after_digit (uint_codepoints d)
  = Some (N.of_nat (Nat.of_uint_acc d a)).
Proof.
  assert (Hstep : ∀ k a', (10 * N.of_nat a' + N.of_nat k)%N
                          = N.of_nat (k + Nat.tail_mul 10 a')).
  { intros k a'. rewrite Nat.tail_mul_spec. lia. }
  revert a after_digit.
  induction d as [|d IH|d IH|d IH|d IH|d IH|d IH|d IH|d IH|d IH|d IH];
    intros a b Hne.
  - destruct Hne as [Hne|Hb]; [done|]. by rewrite Hb.
  - change (literal_value (10 * N.of_nat a + N.of_nat 0) true (uint_codepoints d)
            = Some (N.of_nat (Nat.of_uint_acc d (0 + Nat.tail_mul 10 a)))).
    rewrite Hstep. apply IH. by right.
  - change (literal_value (10 * N.of_nat a + N.of_nat 1) true (uint_codepoints d)
            = Some (N.of_nat (Nat.of_uint_acc d (1 + Nat.tail_mul 10 a)))).
    rewrite Hstep. apply IH. by right.
  - change (literal_value (10 * N.of_nat a + N.of_nat 2) true (uint_codepoints d)
            = Some (N.of_nat (Nat.of_uint_acc d (2 + Nat.tail_mul 10 a)))).
    rewrite Hstep. apply IH. by right.
  - change (literal_value (10 * N.of_nat a + N.of_nat 3) true (uint_codepoints d)
            = Some (N.of_nat (Nat.of_uint_acc d (3 + Nat.tail_mul 10 a)))).
    rewrite Hstep. apply IH. by right.
  - change (literal_value (10 * N.of_nat a + N.of_nat 4) true (uint_codepoints d)
            = Some (N.of_nat (Nat.of_uint_acc d (4 + Nat.tail_mul 10 a)))).
    rewrite Hstep. apply IH. by right.
  - change (literal_value (10 * N.of_nat a + N.of_nat 5) true (uint_codepoints d)
            = Some (N.of_nat (Nat.of_uint_acc d (5 + Nat.tail_mul 10 a)))).
    rewrite Hstep. apply IH. by right.
  - change (literal_value (10 * N.of_nat a + N.of_nat 6) true (uint_codepoints d)
            = Some (N.of_nat (Nat.of_uint_acc d (6 + Nat.tail_mul 10 a)))).
    rewrite Hstep. apply IH. by right.
  - change (literal_value (10 * N.of_nat a + N.of_nat 7) true (uint_codepoints d)
            = Some (N.of_nat (Nat.of_uint_acc d (7 + Nat.tail_mul 10 a)))).
    rewrite Hstep. apply IH. by right.
  - change (literal_value (10 * N.of_nat a + N.of_nat 8) true (uint_codepoints d)
            = Some (N.of_nat (Nat.of_uint_acc d (8 + Nat.tail_mul 10 a)))).
    rewrite Hstep. apply IH. by right.
  - change (literal_value (10 * N.of_nat a + N.of_nat 9) true (uint_codepoints d)
            = Some (N.of_nat (Nat.of_uint_acc d (9 + Nat.tail_mul 10 a)))).
    rewrite Hstep. apply IH. by right.
Qed.

(** What [int] makes of a run of decimal digits. *)
Lemma int_decimal_value s :
  decimal s → s ≠ [] → (length s ≤ int_max_str_digits)%nat →
  int s = Z.of_N <$> literal_value 0 false s.
Proof.
  intros Hs Hne Hlen. unfold int. rewrite skip_int_space_decimal by done.
  destruct s as [|c s]; [done|].
  pose proof (proj1 (Forall_cons _ _ _) Hs) as [Hc _].
  destruct (decimal_not_mark c Hc) as (Hm & Hp & _).
  destruct (N.eqb_spec c 0x2D%N) as [|_]; [done|].
  destruct (N.eqb_spec c 0x2B%N) as [|_]; [done|].
  rewrite skip_int_space_decimal by by apply Forall_reverse.
  rewrite reverse_involutive.
  destruct (literal_value 0 false (c :: s)) as [v|]; [|done].
  unfold count_digits.
  destruct (_ <? _)%nat eqn:E; [|done].
  apply Nat.ltb_lt in E.
  match type of E with
  | (_ < length (filter ?P ?l))%nat => pose proof (length_filter P l)
  end. unfold str in *. lia.
Qed.

Lemma str_of_nat_nonempty n : str_of_nat n ≠ [].
Proof.
  unfold str_of_nat. pose proof (to_uint_not_nil n).
  by destruct (Nat.to_uint n).
Qed.

Lemma isdigit_str_of_nat n : isdigit (str_of_nat n) = true.
Proof.
  apply decimal_isdigit; [apply uint_codepoints_decimal | apply str_of_nat_nonempty].
Qed.

(** [int(str(n)) == n], as long as [str(n)] is within the length limit. *)
Lemma int_str_of_nat n :
  (length (str_of_nat n) ≤ int_max_str_digits)%nat →
  int (str_of_nat n) = Some (Z.of_nat n).
Proof.
  intros Hlen. rewrite int_decimal_value;
    [|apply uint_codepoints_decimal|apply str_of_nat_nonempty|done].
  unfold str_of_nat. change 0%N with (N.of_nat 0).
  rewrite (literal_value_uint (Nat.to_uint n) 0 false)
    by (left; apply to_uint_not_nil).
  change (Nat.of_uint_acc (Nat.to_uint n) 0) with (Nat.of_uint (Nat.to_uint n)).
  rewrite DecimalNat.Unsigned.of_to. simpl. f_equal. lia.
Qed.

End printed_numbers.

(** ** The store a handler leaves behind *)

Section effects.

Implicit Types (st : store) (u : update) (args : list str) (chat : Z) (t : task).

Lemma get_tasks_for_lookup chat st :
  (get_tasks_for chat st).2 !! chat = Some (snapshot st chat).
Proof.
  unfold get_tasks_for, snapshot. destruct (st !! chat) eqn:E; simpl; [done|].
  by rewrite lookup_insert_eq.
Qed.

Lemma get_tasks_for_keeps_keys chat st c :
  is_Some (st !! c) → is_Some ((get_tasks_for chat st).2 !! c).
Proof.
  unfold get_tasks_for. destruct (st !! chat); simpl; [done|].
  intros H. apply lookup_insert_is_Some. destruct (decide (chat = c)); auto.
Qed.

Lemma insert_keeps_keys chat (tasks : list task) st c :
  is_Some (st !! c) → is_Some (<[chat := tasks]> st !! c).
Proof.
  intros H. apply lookup_insert_is_Some. destruct (decide (chat = c)); auto.
Qed.

(** [/list] and [/goto] leave the store as the lookup left it. *)
Lemma list_tasks_store u args st :
  (list_tasks u args st).2 = (get_tasks_for (effective_chat_id u) st).2.
Proof.
  unfold list_tasks. by destruct (get_tasks_for _ st) as [[|??] ?].
Qed.

Lemma goto_task_store u args st :
  (goto_task u args st).2 = (get_tasks_for (effective_chat_id u) st).2.
Proof.
  unfold goto_task. destruct (get_tasks_for _ st) as [[|t0 tasks] st']; [done|].
  destruct (no_number args); [done|].
  destruct (int _) as [n|]; [|done].
  destruct (_ || _); [done|].
  by destruct (getitem _ _) as [[[??]?]|].
Qed.

(** [/done] leaves the store as the lookup left it, or with one task of the
    chat's list deleted. *)
Lemma done_task_store u args st :
  (done_task u args st).2 = (get_tasks_for (effective_chat_id u) st).2 ∨
  ∃ j t, snapshot st (effective_chat_id u) !! j = Some t ∧
         (done_task u args st).2 =
           <[effective_chat_id u := delete j (snapshot st (effective_chat_id u))]> st.
Proof.
  unfold done_task.
  pose proof (get_tasks_for_list (effective_chat_id u) st) as Hl.
  pose proof (get_tasks_for_insert (effective_chat_id u) st) as Hi.
  destruct (get_tasks_for _ st) as [tasks st']. simpl in Hl, Hi. subst tasks.
  destruct (snapshot st (effective_chat_id u)) as [|t0 tasks]; [by left|].
  destruct (no_number args); [by left|].
  destruct (int _) as [n|]; [|by left].
  destruct (_ || _); [by left|].
  unfold pop. destruct (position _ _) as [j|]; [|by left].
  destruct (_ !! j) as [[[x y] z]|] eqn:Hj; [|by left]. simpl.
  right. exists j, (x, y, z). by rewrite Hi.
Qed.

(** [/add] leaves the store as it was, or with one task more at the end of
    the chat's list. *)
Lemma add_store u args st :
  (add u args st).2 = st ∨
  (truthy (strip (join (lit " ") args)) = true ∧
   (add u args st).2 =
     <[effective_chat_id u :=
         snapshot st (effective_chat_id u)
         ++ [(strip (join (lit " ") args), message_id u,
              display_name (effective_user u))]]> st).
Proof.
  destruct (truthy (strip (join (lit " ") args))) eqn:E.
  - right. by rewrite add_something.
  - left. by rewrite add_nothing.
Qed.

(** No handler touches the list of a chat it was not called for. *)
Lemma handler_other_chat name h u args st chat :
  (name, h) ∈ handlers → chat ≠ effective_chat_id u →
  snapshot (h u args st).2 chat = snapshot st chat.
Proof.
  unfold handlers. rewrite !elem_of_cons, elem_of_nil.
  intros [H|[H|[H|[H|[H|[H|[H|[]]]]]]]] Hne; injection H as _ ->.
  - done.
  - done.
  - destruct (add_store u args st) as [->|[_ ->]]; [done|].
    by apply snapshot_insert_ne.
  - rewrite list_tasks_store. apply get_tasks_for_store.
  - rewrite goto_task_store. apply get_tasks_for_store.
  - destruct (done_task_store u args st) as [->|(j & t & _ & ->)].
    + apply get_tasks_for_store.
    + by apply snapshot_insert_ne.
  - unfold clear_tasks. simpl. by apply snapshot_insert_ne.
Qed.

(** A task found after a handler ran was there before, or is the one
    [/add] has just made. *)
Lemma handler_task_origin name h u args st chat t :
  (name, h) ∈ handlers → t ∈ snapshot (h u args st).2 chat →
  t ∈ snapshot st chat ∨
  (name = lit "add" ∧ chat = effective_chat_id u ∧
   truthy (strip (join (lit " ") args)) = true ∧
   t = (strip (join (lit " ") args), message_id u,
        display_name (effective_user u))).
Proof.
  intros Hh. destruct (decide (chat = effective_chat_id u)) as [->|Hne];
    [|rewrite (handler_other_chat _ _ _ _ _ _ Hh Hne); by left].
  revert Hh. unfold handlers. rewrite !elem_of_cons, elem_of_nil.
  intros [H|[H|[H|[H|[H|[H|[H|[]]]]]]]]; injection H as Hn ->.
  - by left.
  - by left.
  - destruct (add_store u args st) as [->|[Htext ->]]; [by left|].
    rewrite snapshot_insert, elem_of_app, list_elem_of_singleton.
    intros [?| ->]; [by left|by right].
  - rewrite list_tasks_store, get_tasks_for_store. by left.
  - rewrite goto_task_store, get_tasks_for_store. by left.
  - destruct (done_task_store u args st) as [->|(j & t' & _ & ->)].
    + rewrite get_tasks_for_store. by left.
    + rewrite snapshot_insert. intros Ht%list_elem_of_delete_inv. by left.
  - unfold clear_tasks. simpl. rewrite snapshot_insert. by intros ?%elem_of_nil.
Qed.

(** No handler removes a chat from the store. *)
Lemma handler_keeps_keys name h u args st chat :
  (name, h) ∈ handlers → is_Some (st !! chat) → is_Some ((h u args st).2 !! chat).
Proof.
  unfold handlers. rewrite !elem_of_cons, elem_of_nil.
  intros [H|[H|[H|[H|[H|[H|[H|[]]]]]]]] Hc; injection H as _ ->.
  - done.
  - done.
  - destruct (add_store u args st) as [->|[_ ->]]; [done|].
    by apply insert_keeps_keys.
  - rewrite list_tasks_store. by apply get_tasks_for_keeps_keys.
  - rewrite goto_task_store. by apply get_tasks_for_keeps_keys.
  - destruct (done_task_store u args st) as [->|(j & t & _ & ->)].
    + by apply get_tasks_for_keeps_keys.
    + by apply insert_keeps_keys.
  - unfold clear_tasks. simpl. by apply insert_keeps_keys.
Qed.

Lemma display_name_nonempty (who : user) : display_name who ≠ [].
Proof.
  unfold display_name.
  destruct (username who) as [n|]; [destruct (truthy n); [done|]|];
    (destruct (truthy (full_name who)) eqn:E1; [by apply truthy_true|]);
    (destruct (truthy (first_name who)) eqn:E2; [by apply truthy_true|]);
    done.
Qed.

(** Every task in a store reached by commands was made by one of the
    [/add] commands among them, sent to the chat the task is in. *)
Lemma run_task_origin cs st chat t :
  t ∈ snapshot (run cs st) chat →
  t ∈ snapshot st chat ∨
  ∃ c, c ∈ cs ∧ commandName c = lit "add" ∧ chatId c = chat ∧
       truthy (strip (argString c)) = true ∧ t = new_task c.
Proof.
  revert st. induction cs as [|c cs IH]; intros st; simpl; [by left|].
  assert (Hlater : ∀ st', t ∈ snapshot (run cs st') chat →
            t ∈ snapshot st' chat ∨
            ∃ c', c' ∈ c :: cs ∧ commandName c' = lit "add" ∧ chatId c' = chat ∧
                  truthy (strip (argString c')) = true ∧ t = new_task c').
  { intros st' [?|(c' & ? & ?)]%IH; [by left|].
    right. exists c'. split; [by right|done]. }
  unfold handle.
  destruct (handler_for (commandName c) handlers) as [h|] eqn:Hh; [|apply Hlater].
  apply handler_for_elem_of in Hh.
  set (u := {| effective_chat_id := chatId c; message_id := sourceMessageId c;
               effective_user := sender c |}).
  destruct (h u (split (argString c)) st) as [o st'] eqn:Hrun.
  intros [Ht|?]%Hlater; [|by right].
  pose proof (handler_task_origin _ _ u (split (argString c)) st chat t Hh) as Ho.
  rewrite Hrun in Ho. destruct (Ho Ht) as [?|(Hn & Hchat & Htext & ->)]; [by left|].
  right. exists c. split; [by left|]. split; [done|]. split; [done|].
  rewrite strip_join_split in Htext. rewrite strip_join_split. split; [|done].
  destruct (truthy (strip (argString c))) eqn:E; [done|].
  assert (Hs : split (argString c) = []).
  { apply split_nil. by destruct (strip (argString c)). }
  by rewrite Hs in Htext.
Qed.

End effects.

(** ** Looking a chat up *)

(** X1. [get_tasks_for] hands out the list stored for the chat, the empty
    list for a chat not seen before; afterwards the chat is a key of the
    store with that list, every chat's list and every other key is as it
    was, and looking the chat up again changes nothing more. *)
Theorem get_tasks_for_setdefault (chat : Z) (st : store) :
  (get_tasks_for chat st).1 = snapshot st chat ∧
  (get_tasks_for chat st).2 !! chat = Some (snapshot st chat) ∧
  (∀ c, snapshot (get_tasks_for chat st).2 c = snapshot st c) ∧
  (∀ c, c ≠ chat → (get_tasks_for chat st).2 !! c = st !! c) ∧
  get_tasks_for chat (get_tasks_for chat st).2
    = (snapshot st chat, (get_tasks_for chat st).2).
Proof.
  split; [apply get_tasks_for_list|]. split; [apply get_tasks_for_lookup|].
  split; [intros c; apply get_tasks_for_store|]. split.
  - intros c Hne. unfold get_tasks_for. destruct (st !! chat); simpl; [done|].
    by rewrite lookup_insert_ne.
  - pose proof (get_tasks_for_lookup chat st) as H.
    unfold get_tasks_for at 1. by rewrite H.
Qed.

(** ** Adding *)

(** X2. [/add] with nothing but whitespace after it answers with the usage
    text and returns the store untouched: no task is added and no chat
    entry is made. *)
Theorem add_without_text (c : command) (st : store) :
  commandName c = lit "add" → truthy (strip (argString c)) = false →
  handle c st = Some (Replied (plain add_usage_text), st).
Proof.
  intros Hname Hs. unfold handle. rewrite Hname.
  change (handler_for (lit "add") handlers) with (Some add). cbv beta iota.
  assert (Hsplit : split (argString c) = []).
  { apply split_nil. by destruct (strip (argString c)). }
  rewrite Hsplit. by rewrite add_nothing.
Qed.

Lemma add_without_text_witness :
  handle add_blank two_chats = Some (Replied (plain add_usage_text), two_chats).
Proof. apply (add_without_text add_blank two_chats); reflexivity. Defined.

(** X14. After an [/add] that stores a task in a chat with [k] tasks,
    [/list] in that chat shows the lines of the earlier tasks followed by
    one for the new task, numbered [k + 1]. *)
Theorem added_task_is_listed_last (u u' : update) (args args' : list str) (st : store) :
  effective_chat_id u' = effective_chat_id u →
  truthy (strip (join (lit " ") args)) = true →
  (list_tasks u' args' (add u args st).2).1 =
    Replied (plain (list_header ++
      join [LF] (imap list_line (snapshot st (effective_chat_id u))
                 ++ [str_of_nat (length (snapshot st (effective_chat_id u)) + 1)
                     ++ lit ". " ++ strip (join (lit " ") args)
                     ++ lit " (by " ++ display_name (effective_user u) ++ lit ")"]))).
Proof.
  intros Hchat Htext. rewrite add_something by done.
  set (new := (strip (join (lit " ") args), message_id u,
               display_name (effective_user u))).
  set (old := snapshot st (effective_chat_id u)).
  unfold list_tasks. rewrite Hchat.
  pose proof (get_tasks_for_list (effective_chat_id u)
                (<[effective_chat_id u := old ++ [new]]> st)) as Hl.
  rewrite snapshot_insert in Hl.
  destruct (get_tasks_for _ _) as [tasks st']. simpl in Hl. subst tasks.
  destruct (old ++ [new]) as [|t0 tasks] eqn:E; [by destruct old|].
  rewrite <-E, imap_app. simpl. unfold list_line at 2.
  by rewrite Nat.add_0_r.
Qed.

Lemma added_task_is_listed_last_witness :
  (list_tasks (from_ann 41) [] (add (from_ann 40) [lit "Feed"; lit "cat"] two_chats).2).1 =
    Replied (plain (list_header ++
      join [LF] (imap list_line (snapshot two_chats 1)
                 ++ [str_of_nat (length (snapshot two_chats 1) + 1)
                     ++ lit ". " ++ strip (join (lit " ") [lit "Feed"; lit "cat"])
                     ++ lit " (by " ++ display_name ann ++ lit ")"]))).
Proof.
  apply (added_task_is_listed_last (from_ann 40) (from_ann 41)
           [lit "Feed"; lit "cat"] [] two_chats); reflexivity.
Defined.

(** ** Listing *)

(** X5. For a chat with tasks, [/list] answers with the header followed by
    one line per task, joined by newlines in list order; the line of the
    task at index [i] is its number [i + 1], a dot, the text and the
    author. *)
Theorem list_tasks_shows_each_task (u : update) (args : list str) (st : store)
    (i : nat) (t : task) :
  snapshot st (effective_chat_id u) !! i = Some t →
  ∃ lines,
    (list_tasks u args st).1 = Replied (plain (list_header ++ join [LF] lines)) ∧
    length lines = length (snapshot st (effective_chat_id u)) ∧
    lines !! i = Some (str_of_nat (i + 1) ++ lit ". " ++ task_text t
                       ++ lit " (by " ++ added_by t ++ lit ")").
Proof.
  intros Hi. exists (imap list_line (snapshot st (effective_chat_id u))).
  split; [|split].
  - unfold list_tasks.
    pose proof (get_tasks_for_list (effective_chat_id u) st) as Hl.
    destruct (get_tasks_for _ st) as [tasks st']. simpl in Hl. subst tasks.
    by destruct (snapshot st (effective_chat_id u)).
  - apply length_imap.
  - by rewrite list_lookup_imap, Hi.
Qed.

Lemma list_tasks_shows_each_task_witness :
  ∃ lines,
    (list_tasks (from_ann 40) [] two_chats).1
      = Replied (plain (list_header ++ join [LF] lines)) ∧
    length lines = length (snapshot two_chats 1) ∧
    lines !! 1%nat = Some (str_of_nat (1 + 1) ++ lit ". " ++ task_text (lit "Call Bob", 12, lit "Someone")
                       ++ lit " (by " ++ added_by (lit "Call Bob", 12, lit "Someone") ++ lit ")").
Proof.
  apply (list_tasks_shows_each_task (from_ann 40) [] two_chats 1
           (lit "Call Bob", 12, lit "Someone")).
  reflexivity.
Defined.

(** ** Numbered commands *)

(** X6. For a chat with tasks and a parsed number outside [[1, len]],
    [/goto] answers with its invalid-number text, names no message to reply
    to, and returns the store it was given. *)
Theorem goto_task_out_of_range (u : update) (a : str) (rest : list str)
    (st : store) (p : Z) :
  snapshot st (effective_chat_id u) ≠ [] →
  isdigit a = true → int a = Some p →
  p < 1 ∨ len (snapshot st (effective_chat_id u)) < p →
  goto_task u (a :: rest) st = (Replied (plain goto_range_text), st).
Proof.
  intros Hne Hdig Hint Hp.
  destruct (snapshot st (effective_chat_id u)) as [|t0 tasks] eqn:Hs; [done|].
  unfold goto_task. rewrite (get_tasks_for_known _ _ _ _ Hs).
  unfold no_number. rewrite Hdig. simpl negb. cbv iota. simpl hd. rewrite Hint.
  destruct (Z.ltb_spec (p - 1) 0); [done|].
  destruct (Z.geb_spec (p - 1) (len (t0 :: tasks))); [done|]. lia.
Qed.

Lemma goto_task_out_of_range_witness :
  goto_task (from_ann 40) [lit "0"] two_chats
    = (Replied (plain goto_range_text), two_chats).
Proof.
  apply (goto_task_out_of_range (from_ann 40) (lit "0") [] two_chats 0).
  - discriminate.
  - reflexivity.
  - reflexivity.
  - left. reflexivity.
Defined.

(** X7. For a chat with tasks, [/goto] and [/done] without an argument, or
    with a first argument that is not all digits, answer with their usage
    text and return the store they were given. *)
Theorem number_is_asked_for (u : update) (args : list str) (st : store) :
  snapshot st (effective_chat_id u) ≠ [] →
  args = [] ∨ (∃ a rest, args = a :: rest ∧ isdigit a = false) →
  goto_task u args st = (Replied (plain goto_usage_text), st) ∧
  done_task u args st = (Replied (plain done_usage_text), st).
Proof.
  intros Hne Hargs.
  destruct (snapshot st (effective_chat_id u)) as [|t0 tasks] eqn:Hs; [done|].
  unfold goto_task, done_task. rewrite (get_tasks_for_known _ _ _ _ Hs).
  assert (Hno : no_number args = true).
  { destruct Hargs as [->|(a & rest & -> & Ha)]; [done|]. simpl. by rewrite Ha. }
  by rewrite Hno.
Qed.

Lemma number_is_asked_for_witness :
  goto_task (from_ann 40) [lit "-1"] two_chats
    = (Replied (plain goto_usage_text), two_chats) ∧
  done_task (from_ann 40) [lit "-1"] two_chats
    = (Replied (plain done_usage_text), two_chats).
Proof.
  apply (number_is_asked_for (from_ann 40) [lit "-1"] two_chats).
  - discriminate.
  - right. exists (lit "-1"), []. split; reflexivity.
Defined.

(** X8. The number [/list] prints in front of a task names that task to
    [/goto] and [/done]: with the task at index [i] and [str(i + 1)] as the
    argument (within the length [int] accepts), [/goto] replies to the
    task's message and [/done] removes exactly that task. *)
Theorem listed_number_names_the_task (u : update) (rest : list str) (st : store)
    (i : nat) (t : task) :
  snapshot st (effective_chat_id u) !! i = Some t →
  (length (str_of_nat (i + 1)) ≤ int_max_str_digits)%nat →
  goto_task u (str_of_nat (i + 1) :: rest) st =
    (Replied {| text := pointer_text (added_by t);
                reply_to_message_id := Some (msg_id t);
                parse_mode := None |}, st) ∧
  done_task u (str_of_nat (i + 1) :: rest) st =
    (Replied (plain (completed_text (task_text t) (added_by t))),
     <[effective_chat_id u := delete i (snapshot st (effective_chat_id u))]> st).
Proof.
  intros Hi Hlen.
  pose proof (isdigit_str_of_nat (i + 1)) as Hdig.
  pose proof (int_str_of_nat (i + 1) Hlen) as Hint.
  assert (Hp : 1 ≤ Z.of_nat (i + 1) ≤ len (snapshot st (effective_chat_id u))).
  { apply lookup_lt_Some in Hi. unfold len. lia. }
  assert (Hidx : Z.to_nat (Z.of_nat (i + 1) - 1) = i) by lia.
  split.
  - destruct (goto_task_in_range u _ rest st _ Hdig Hint Hp) as (t' & Ht' & ->).
    rewrite Hidx in Ht'. by simplify_eq.
  - destruct (done_task_in_range u _ rest st _ Hdig Hint Hp) as (t' & Ht' & ->).
    rewrite Hidx in *. by simplify_eq.
Qed.

Lemma listed_number_names_the_task_witness :
  goto_task (from_ann 40) (str_of_nat (1 + 1) :: []) two_chats =
    (Replied {| text := pointer_text (added_by (lit "Call Bob", 12, lit "Someone"));
                reply_to_message_id := Some (msg_id (lit "Call Bob", 12, lit "Someone"));
                parse_mode := None |}, two_chats) ∧
  done_task (from_ann 40) (str_of_nat (1 + 1) :: []) two_chats =
    (Replied (plain (completed_text (task_text (lit "Call Bob", 12, lit "Someone"))
                                    (added_by (lit "Call Bob", 12, lit "Someone")))),
     <[effective_chat_id (from_ann 40) :=
         delete 1%nat (snapshot two_chats (effective_chat_id (from_ann 40)))]> two_chats).
Proof.
  apply (listed_number_names_the_task (from_ann 40) [] two_chats 1
           (lit "Call Bob", 12, lit "Someone")).
  - reflexivity.
  - vm_compute. lia.
Defined.

(** X9. Adding a task and then completing the number it got undoes the
    addition: [/done k+1] right after an [/add] on a chat with [k] tasks
    names the added text and author and leaves the chat with the list it
    had before. *)
Theorem done_undoes_add (u u' : update) (args rest : list str) (st : store) :
  effective_chat_id u' = effective_chat_id u →
  truthy (strip (join (lit " ") args)) = true →
  (length (str_of_nat (length (snapshot st (effective_chat_id u)) + 1))
     ≤ int_max_str_digits)%nat →
  done_task u' (str_of_nat (length (snapshot st (effective_chat_id u)) + 1) :: rest)
            (add u args st).2 =
    (Replied (plain (completed_text (strip (join (lit " ") args))
                                    (display_name (effective_user u)))),
     <[effective_chat_id u := snapshot st (effective_chat_id u)]> st).
Proof.
  intros Hchat Htext Hlen. rewrite add_something by done.
  set (chat := effective_chat_id u) in *. set (old := snapshot st chat) in *.
  set (new := (strip (join (lit " ") args), message_id u,
               display_name (effective_user u))).
  set (st1 := <[chat := old ++ [new]]> st). cbn [snd].
  assert (Hs1 : snapshot st1 (effective_chat_id u') = old ++ [new]).
  { rewrite Hchat. apply snapshot_insert. }
  pose proof (isdigit_str_of_nat (length old + 1)) as Hdig.
  pose proof (int_str_of_nat (length old + 1) Hlen) as Hint.
  assert (Hp : 1 ≤ Z.of_nat (length old + 1) ≤ len (snapshot st1 (effective_chat_id u'))).
  { rewrite Hs1. unfold len. rewrite length_app. simpl. lia. }
  destruct (done_task_in_range u' _ rest st1 _ Hdig Hint Hp) as (t' & Ht' & ->).
  replace (Z.to_nat (Z.of_nat (length old + 1) - 1)) with (length old + 0)%nat in * by lia.
  rewrite Hs1 in *. rewrite lookup_app_r in Ht' by lia.
  replace (length old + 0 - length old)%nat with 0%nat in Ht' by lia.
  simpl in Ht'. injection Ht' as <-.
  replace (length old + 0)%nat with (length old) by lia.
  unfold task in *. rewrite (delete_middle old [] new), app_nil_r, Hchat.
  unfold st1. by rewrite insert_insert_eq.
Qed.

Lemma done_undoes_add_witness :
  done_task (from_ann 41)
            (str_of_nat (length (snapshot two_chats (effective_chat_id (from_ann 40))) + 1) :: [])
            (add (from_ann 40) [lit "Feed"; lit "cat"] two_chats).2 =
    (Replied (plain (completed_text (strip (join (lit " ") [lit "Feed"; lit "cat"]))
                                    (display_name (effective_user (from_ann 40))))),
     <[effective_chat_id (from_ann 40) :=
         snapshot two_chats (effective_chat_id (from_ann 40))]> two_chats).
Proof.
  apply (done_undoes_add (from_ann 40) (from_ann 41) [lit "Feed"; lit "cat"] [] two_chats).
  - reflexivity.
  - reflexivity.
  - vm_compute. lia.
Defined.

(** ** Clearing *)

(** X10. After [/clear], whatever the chat held, [/list] and [/goto] answer
    that there are no tasks and [/done] that there is nothing to complete,
    for any arguments, and they leave the cleared store as it is. *)
Theorem cleared_chat_is_empty (u u' : update) (args a1 a2 a3 : list str) (st : store) :
  effective_chat_id u' = effective_chat_id u →
  list_tasks u' a1 (clear_tasks u args st).2
    = (Replied (plain no_tasks_text), (clear_tasks u args st).2) ∧
  goto_task u' a2 (clear_tasks u args st).2
    = (Replied (plain no_tasks_text), (clear_tasks u args st).2) ∧
  done_task u' a3 (clear_tasks u args st).2
    = (Replied (plain nothing_to_complete_text), (clear_tasks u args st).2).
Proof.
  intros Hchat. unfold clear_tasks. simpl.
  unfold list_tasks, goto_task, done_task, get_tasks_for.
  by rewrite Hchat, lookup_insert_eq.
Qed.

Lemma cleared_chat_is_empty_witness :
  list_tasks (from_ann 41) [] (clear_tasks (from_ann 40) [] two_chats).2
    = (Replied (plain no_tasks_text), (clear_tasks (from_ann 40) [] two_chats).2) ∧
  goto_task (from_ann 41) [lit "1"] (clear_tasks (from_ann 40) [] two_chats).2
    = (Replied (plain no_tasks_text), (clear_tasks (from_ann 40) [] two_chats).2) ∧
  done_task (from_ann 41) [lit "1"] (clear_tasks (from_ann 40) [] two_chats).2
    = (Replied (plain nothing_to_complete_text), (clear_tasks (from_ann 40) [] two_chats).2).
Proof.
  apply (cleared_chat_is_empty (from_ann 40) (from_ann 41) [] [] [lit "1"] [lit "1"] two_chats).
  reflexivity.
Defined.

(** ** All handlers *)

(** X3. A handler changes no list but that of the chat it is called for:
    whatever the command and its arguments, every other chat has the same
    tasks afterwards. *)
Theorem other_chats_are_untouched (name : str) (h : handler) (u : update)
    (args : list str) (st : store) (chat : Z) :
  (name, h) ∈ handlers → chat ≠ effective_chat_id u →
  snapshot (h u args st).2 chat = snapshot st chat.
Proof. apply handler_other_chat. Qed.

Lemma other_chats_are_untouched_witness :
  snapshot (done_task (from_ann 40) [lit "1"] two_chats).2 2 = snapshot two_chats 2.
Proof.
  apply (other_chats_are_untouched (lit "done") done_task (from_ann 40)
           [lit "1"] two_chats 2).
  - unfold handlers. do 5 right. left.
  - discriminate.
Defined.

(** X4. [/start], [/help], [/list] and [/goto] never change a task list:
    for any arguments and any store, also when they answer with an error,
    every chat has the same tasks afterwards; [/start] and [/help] return
    the very store they were given. *)
Theorem reading_commands_change_no_list (u : update) (args : list str)
    (st : store) (chat : Z) :
  (start u args st).2 = st ∧
  (help_cmd u args st).2 = st ∧
  snapshot (list_tasks u args st).2 chat = snapshot st chat ∧
  snapshot (goto_task u args st).2 chat = snapshot st chat.
Proof.
  split; [done|]. split; [done|].
  rewrite list_tasks_store, goto_task_store. split; apply get_tasks_for_store.
Qed.



(** X16. A task number written in decimal digits only, of any script and
    no longer than [int] accepts, always gets a reply from [/goto] and
    [/done]. *)
Theorem decimal_number_gets_a_reply (u : update) (a : str) (rest : list str)
    (st : store) :
  decimal a → a ≠ [] → (length a ≤ int_max_str_digits)%nat →
  (∃ r, (goto_task u (a :: rest) st).1 = Replied r) ∧
  (∃ r, (done_task u (a :: rest) st).1 = Replied r).
Proof. apply numbered_commands_reply. Qed.

Lemma decimal_number_gets_a_reply_witness :
  (∃ r, (goto_task (from_ann 40) ([0x661; 0x32]%N :: []) two_chats).1 = Replied r) ∧
  (∃ r, (done_task (from_ann 40) ([0x661; 0x32]%N :: []) two_chats).1 = Replied r).
Proof.
  apply (decimal_number_gets_a_reply (from_ann 40) [0x661; 0x32]%N [] two_chats).
  - repeat constructor; by eexists.
  - discriminate.
  - vm_compute. lia.
Defined.

(** ** Stores reached by commands *)

(** X11. Every task in a store reached from the empty one was put there by
    an [/add] among the commands handled, sent to the chat the task is in
    with something left of its text after trimming; the task carries the
    tokens of that text joined by single blanks, the id of that message and
    the display name of its sender.  No task is made up, edited or moved to
    another chat. *)
Theorem tasks_come_from_add (cs : list command) (chat : Z) (t : task) :
  t ∈ snapshot (run cs tasks_by_chat) chat →
  ∃ c, c ∈ cs ∧ commandName c = lit "add" ∧ chatId c = chat ∧
       truthy (strip (argString c)) = true ∧
       t = (join (lit " ") (split (argString c)), sourceMessageId c,
            display_name (sender c)).
Proof.
  intros [Ht|H]%run_task_origin; [|done].
  unfold snapshot, tasks_by_chat in Ht. rewrite lookup_empty in Ht.
  by apply elem_of_nil in Ht.
Qed.

Lemma tasks_come_from_add_witness :
  ∃ c, c ∈ [add_blank; add_buy_milk] ∧ commandName c = lit "add" ∧ chatId c = 1 ∧
       truthy (strip (argString c)) = true ∧
       (lit "Buy milk", 10, lit "@ann")
       = (join (lit " ") (split (argString c)), sourceMessageId c,
          display_name (sender c)).
Proof.
  apply (tasks_come_from_add [add_blank; add_buy_milk] 1 (lit "Buy milk", 10, lit "@ann")).
  vm_compute. left.
Defined.

(** X13. In every store reached from the empty one, every task has a
    non-empty author label, and its text is single-spaced: split at
    whitespace and joined again with single blanks it is the same text. *)
Theorem stored_tasks_are_single_spaced (cs : list command) (chat : Z) (t : task) :
  t ∈ snapshot (run cs tasks_by_chat) chat →
  added_by t ≠ [] ∧
  join (lit " ") (split (task_text t)) = task_text t.
Proof.
  intros [Ht|(c & _ & _ & _ & _ & ->)]%run_task_origin.
  - unfold snapshot, tasks_by_chat in Ht. rewrite lookup_empty in Ht.
    by apply elem_of_nil in Ht.
  - split; [apply display_name_nonempty|].
    unfold new_task, task_text. simpl.
    by rewrite split_join by apply split_tokens.
Qed.

Lemma stored_tasks_are_single_spaced_witness :
  added_by (lit "Buy milk", 10, lit "@ann") ≠ [] ∧
  join (lit " ") (split (task_text (lit "Buy milk", 10, lit "@ann")))
    = task_text (lit "Buy milk", 10, lit "@ann").
Proof.
  apply (stored_tasks_are_single_spaced [add_blank; add_buy_milk] 1
           (lit "Buy milk", 10, lit "@ann")).
  vm_compute. left.
Defined.

(** X12. A chat that has an entry in the store keeps one through any
    series of commands: [/clear] and [/done] empty lists but never remove
    the chat. *)
Theorem chats_stay_in_the_store (cs : list command) (st : store) (chat : Z) :
  is_Some (st !! chat) → is_Some (run cs st !! chat).
Proof.
  revert st. induction cs as [|c cs IH]; intros st Hc; simpl; [done|].
  unfold handle.
  destruct (handler_for (commandName c) handlers) as [h|] eqn:Hh; [|by apply IH].
  apply handler_for_elem_of in Hh.
  pose proof (handler_keeps_keys _ _
    {| effective_chat_id := chatId c; message_id := sourceMessageId c;
       effective_user := sender c |} (split (argString c)) st chat Hh Hc) as H.
  destruct (h _ _ st) as [o st']. by apply IH.
Qed.

Lemma chats_stay_in_the_store_witness :
  is_Some (run [add_buy_milk; clear_chat_two] two_chats !! 2).
Proof.
  apply (chats_stay_in_the_store [add_buy_milk; clear_chat_two] two_chats 2).
  by eexists.
Defined.
